(** * wiwik forum helpers: markdown code-block dedenting, request tab, number humanizing

    Shallow embedding of
      - forum/common/utils.py  (_find_code_blocks, _dedent_code_block,
        dedent_code, get_request_param, get_request_tab)
      - forum/wiwik_lib/templatetags/wiwik_template_tags.py (humanize_number)

    A Python [str] is modelled as a list of characters; a character is an
    8-bit code point ([ascii]).  List indexing that raises [IndexError] in
    Python is a [None] in the option monad, so that "never raises" is a
    statement and not a convention. *)

From stdpp Require Import base option list sorting strings gmap.
From Stdlib Require Import ZArith Ascii Lia.

Local Open Scope Z_scope.

(** ** Python strings *)

Definition py (s : string) : list ascii := String.list_ascii_of_string s.

Definition newline : ascii := "010"%char.
Definition backtick : ascii := "`"%char.
Definition space : ascii := " "%char.

(** The literal ['```']. *)
Definition fence : list ascii := [backtick; backtick; backtick].

(** [len(s)] as a Python int. *)
Definition len (s : list ascii) : Z := Z.of_nat (length s).

(** [sys.maxsize] on a 64-bit build; no [str] is longer than this. *)
Definition sys_maxsize : Z := 2 ^ 63 - 1.

(** [s.startswith(sub)] *)
Fixpoint startswith (sub s : list ascii) : bool :=
  match sub, s with
  | [], _ => true
  | _ :: _, [] => false
  | a :: sub', c :: s' => if decide (a = c) then startswith sub' s' else false
  end.

(** [sub in s] *)
Fixpoint contains (sub s : list ascii) : bool :=
  startswith sub s ||
  match s with
  | [] => false
  | _ :: s' => contains sub s'
  end.

(** [s.find(sub)]: the lowest index where [sub] starts, [-1] when there is
    none. *)
Fixpoint find (sub s : list ascii) : Z :=
  if startswith sub s then 0
  else match s with
       | [] => -1
       | _ :: s' => let r := find sub s' in if r <? 0 then -1 else 1 + r
       end.

(** [c.isspace()] for the code points below 256: TAB, LF, VT, FF, CR,
    FS, GS, RS, US, SPACE, NEL and NBSP. *)
Definition isspace (c : ascii) : bool :=
  let n := N_of_ascii c in
  ((9 <=? n) && (n <=? 13) || (28 <=? n) && (n <=? 32) ||
   (n =? 133) || (n =? 160))%N.

(** [s.lstrip()] *)
Fixpoint lstrip (s : list ascii) : list ascii :=
  match s with
  | c :: s' => if isspace c then lstrip s' else s
  | [] => []
  end.

(** [s[d:]] for an arbitrary Python int [d]: a negative start counts from
    the end of the string and is clamped at its beginning. *)
Definition slice_from (s : list ascii) (d : Z) : list ascii :=
  if d <? 0 then drop (Z.to_nat (Z.max (len s + d) 0)) s
  else drop (Z.to_nat d) s.

(** [s.split('\n')] *)
Fixpoint split_lines (s : list ascii) : list (list ascii) :=
  match s with
  | [] => [[]]
  | c :: s' =>
      if decide (c = newline) then [] :: split_lines s'
      else match split_lines s' with
           | l :: ls => (c :: l) :: ls
           | [] => [[c]]
           end
  end.

(** ['\n'.join(lines)] *)
Fixpoint join_lines (lines : list (list ascii)) : list ascii :=
  match lines with
  | [] => []
  | [l] => l
  | l :: ls => l ++ newline :: join_lines ls
  end.

(** ** forum/common/utils.py *)

(** The [for i, line in enumerate(...)] loop of [_find_code_blocks]; [i] is
    the index of the head of [lines], [start] and [res] are the loop's two
    variables. *)
Fixpoint find_code_blocks_loop (lines : list (list ascii)) (i : nat)
    (start : option nat) (res : list (nat * nat)) : list (nat * nat) :=
  match lines with
  | [] => res
  | line :: rest =>
      if contains fence line then
        match start with
        | None => find_code_blocks_loop rest (S i) (Some i) res
        | Some s => find_code_blocks_loop rest (S i) None (res ++ [(s, i)])
        end
      else find_code_blocks_loop rest (S i) start res
  end.

Definition _find_code_blocks (markdown_text_lines : list (list ascii))
  : list (nat * nat) :=
  find_code_blocks_loop markdown_text_lines 0 None [].

(** [range(a, b)] *)
Definition range (a b : nat) : list nat := seq a (b - a).

(** First loop of [_dedent_code_block] (lines 23-24): the running minimum
    of the indentation of [lines[i]]. *)
Fixpoint line_start_loop (lines : list (list ascii)) (idx : list nat)
    (line_start : Z) : option Z :=
  match idx with
  | [] => Some line_start
  | i :: idx' =>
      l ← lines !! i;
      line_start_loop lines idx' (Z.min line_start (len l - len (lstrip l)))
  end.

(** Second loop of [_dedent_code_block] (lines 29-30):
    [lines[i] = lines[i][dedent_chars:]]. *)
Fixpoint slice_loop (lines : list (list ascii)) (idx : list nat)
    (dedent_chars : Z) : option (list (list ascii)) :=
  match idx with
  | [] => Some lines
  | i :: idx' =>
      l ← lines !! i;
      slice_loop (<[i := slice_from l dedent_chars]> lines) idx' dedent_chars
  end.

(** Lines 21-26 of [_dedent_code_block]: the value of [dedent_chars]. *)
Definition dedent_chars_of (lines : list (list ascii)) (start end_ : nat)
  : option Z :=
  fence_line ← lines !! start;
  let fence_start := find fence fence_line in
  line_start ← line_start_loop lines (range (start + 1) end_) sys_maxsize;
  let line_start := Z.max line_start 0 in
  Some (line_start - fence_start).

(** [_dedent_code_block] mutates [lines] in place; here it returns the
    list after the call. *)
Definition _dedent_code_block (lines : list (list ascii)) (start end_ : nat)
  : option (list (list ascii)) :=
  dedent_chars ← dedent_chars_of lines start end_;
  if dedent_chars =? 0 then Some lines
  else slice_loop lines (range (start + 1) end_) dedent_chars.

(** The [for section in code_blocks_sections] loop of [dedent_code]. *)
Fixpoint dedent_sections (lines : list (list ascii))
    (sections : list (nat * nat)) : option (list (list ascii)) :=
  match sections with
  | [] => Some lines
  | section :: rest =>
      lines' ← _dedent_code_block lines section.1 section.2;
      dedent_sections lines' rest
  end.

(** The list [lines] of [dedent_code] just before the final join. *)
Definition dedent_code_lines (markdown_text : list ascii)
  : option (list (list ascii)) :=
  let lines := split_lines markdown_text in
  let code_blocks_sections := _find_code_blocks lines in
  dedent_sections lines code_blocks_sections.

Definition dedent_code (markdown_text : list ascii) : option (list ascii) :=
  join_lines <$> dedent_code_lines markdown_text.

(** [request.GET] is a django [QueryDict]: every key carries the list of
    the values given for it in the query string. *)
Record HttpRequest := { GET : gmap string (list string) }.

(** [QueryDict.get(key, default)] (django's [MultiValueDict.get]): the last
    value of the key, [default] when the key is missing or its list is
    empty.  A Python [Optional[str]] is an [option string]. *)
Definition querydict_get (q : gmap string (list string)) (key : string)
    (default : option string) : option string :=
  match q !! key with
  | Some vs => match last vs with
               | Some v => Some v
               | None => default
               end
  | None => default
  end.

(** [if request.GET:] is true for a non-empty dictionary. *)
Definition get_request_param (request : HttpRequest) (param_name : string)
    (default_value : option string) : option string :=
  if decide (GET request = ∅) then default_value
  else querydict_get (GET request) param_name default_value.

(** The set literal of [get_request_tab]. *)
Definition tabs : gset string :=
  {[ "mostviewed"; "unanswered"; "latest"; "unresolved" ]}.

Definition get_request_tab (request : HttpRequest) : option string :=
  let res := get_request_param request "tab" (Some "latest") in
  match res with
  | Some t => if decide (t ∈ tabs) then res else Some "latest"
  | None => Some "latest"
  end.

(** ** wiwik_lib/templatetags/wiwik_template_tags.py *)

(** What [humanize_number] returns: a [str] or the [int] it was given.
    The abbreviated strings are kept symbolic, since they come out of a
    float division and a float format: [Formatted q u] stands for
    ['{:,}' + u].format(q / 10). *)
Inductive humanized :=
  | Str (s : string)
  | Formatted (q : Z) (unit : string)
  | Int (value : Z).

Definition humanize_number (value : option Z) : humanized :=
  match value with
  | None => Str ""
  | Some value =>
      if 1000000000 <? value then Formatted (value / 100000000) "B"
      else if 1000000 <? value then Formatted (value / 100000) "m"
      else if 1000 <? value then Formatted (value / 100) "k"
      else Int value
  end.

(** The two tables of [_3RD_PARTY_URLS]: [_3RD_PARTY_URLS['CDN']] and
    [_3RD_PARTY_URLS['STATIC']]. *)
Definition _3RD_PARTY_URLS_CDN : gmap string string :=
  list_to_map
    [ ("bootstrap-css", "https://cdn.jsdelivr.net/npm/bootstrap@5.2.3/dist/css/bootstrap.min.css");
      ("bootstrap-js", "https://cdn.jsdelivr.net/npm/bootstrap@5.2.3/dist/js/bootstrap.min.js");
      ("bootstrap-bundle-js", "https://cdn.jsdelivr.net/npm/bootstrap@5.2.3/dist/js/bootstrap.bundle.min.js");
      ("easymde-js", "https://cdn.jsdelivr.net/npm/easymde@2.18.0/dist/easymde.min.js");
      ("easymde-css", "https://cdn.jsdelivr.net/npm/easymde@2.18.0/dist/easymde.min.css");
      ("croppie-js", "https://cdn.jsdelivr.net/npm/croppie@2.6.5/croppie.min.js");
      ("croppie-css", "https://cdn.jsdelivr.net/npm/croppie@2.6.5/croppie.css");
      ("font-awesome-css", "https://cdn.jsdelivr.net/npm/font-awesome@4.7.0/css/font-awesome.min.css");
      ("tagify-js", "https://cdn.jsdelivr.net/npm/@yaireo/tagify@4.17.8/dist/tagify.min.js");
      ("tagify-polyfills-js", "https://cdn.jsdelivr.net/npm/@yaireo/tagify@4.17.8/dist/tagify.polyfills.min.js");
      ("mermaidjs", "https://cdn.jsdelivr.net/npm/mermaid@10/dist/mermaid.esm.min.mjs") ].

Definition _3RD_PARTY_URLS_STATIC : gmap string string :=
  list_to_map
    [ ("bootstrap-css", "bootstrap-5.2.3-dist/css/bootstrap.min.css");
      ("bootstrap-js", "bootstrap-5.2.3/dist/js/bootstrap.min.js");
      ("bootstrap-bundle-js", "bootstrap-5.2.3/dist/js/bootstrap.bundle.min.js");
      ("easymde-js", "easymde/easymde.min.js");
      ("easymde-css", "easymde/easymde.min.css");
      ("croppie-js", "croppie/croppie.min.js");
      ("croppie-css", "croppie/croppie.min.css");
      ("font-awesome-css", "css/font-awesome.min.css");
      ("tagify-js", "tagify/tagify.js");
      ("tagify-polyfills-js", "tagify/tagify.polyfills.min.js");
      ("mermaidjs", "mermaidjs/dist/mermaid.esm.min.mjs") ].

(** The exceptions [get_url] can meet: the [TemplateSyntaxError] it raises
    itself, and the [KeyError] of a dictionary subscript. *)
Inductive exception :=
  | TemplateSyntaxError (msg : string)
  | KeyError (key : string).

(** [d[key]] *)
Definition getitem (d : gmap string string) (key : string)
  : exception + string :=
  match d !! key with
  | Some v => inr v
  | None => inl (KeyError key)
  end.

(** [get_url]; [USE_CDN] is [settings.USE_CDN] and [static] is django's
    [static()], which turns a path below the static root into a URL. *)
Definition get_url (USE_CDN : bool) (static : string → string)
    (tool_name : string) : exception + string :=
  if bool_decide (tool_name ∉ dom _3RD_PARTY_URLS_CDN)
     || bool_decide (tool_name ∉ dom _3RD_PARTY_URLS_STATIC)
  then inl (TemplateSyntaxError (tool_name +:+ " does not exist!"))
  else if USE_CDN then getitem _3RD_PARTY_URLS_CDN tool_name
  else match getitem _3RD_PARTY_URLS_STATIC tool_name with
       | inr path => inr (static path)
       | inl e => inl e
       end.

(** The tool names the templates may ask for. *)
Definition tool_names : list string :=
  [ "bootstrap-css"; "bootstrap-js"; "bootstrap-bundle-js"; "easymde-js";
    "easymde-css"; "croppie-js"; "croppie-css"; "font-awesome-css";
    "tagify-js"; "tagify-polyfills-js"; "mermaidjs" ].

(** [tag_experts]: [tag.tagfollow_set.filter(reputation__gt=0)
    .order_by('-reputation')[:3]].  A [TagFollow] row is a user following
    the tag, with the reputation the user has on it; [tagfollow_set] is the
    list of the tag's rows.  The query is a [WHERE], an [ORDER BY ... DESC]
    and a [LIMIT 3]; the order the database gives to rows of equal
    reputation is not fixed, and no theorem below depends on it. *)
Record TagFollow := { follower : nat; reputation : Z }.

Definition more_reputation (x y : TagFollow) : Prop :=
  reputation y ≤ reputation x.

Global Instance more_reputation_dec x y : Decision (more_reputation x y).
Proof. unfold more_reputation. apply _. Defined.

Definition tag_experts (tagfollow_set : list TagFollow) : list TagFollow :=
  take 3 (merge_sort more_reputation
            (filter (λ f, 0 < reputation f) tagfollow_set)).

(** ** forum/models/question_addins.py *)

(** A [QuestionBookmark] instance: its primary key ([None] until it is
    saved) and the keys of its question and of its user.  [created_at] is
    set by the database and read by neither method. *)
Record QuestionBookmark :=
  { pk : option nat; question : nat; user : nat }.

(** The part of the database the two methods touch: the bookmark table
    (primary key to question and user) and the [bookmarks_count] column of
    the user table. *)
Record Database :=
  { bookmarks : gmap nat (nat * nat); bookmarks_count : gmap nat nat }.

(** [QuestionBookmark.objects.filter(user=u).count()]; the manager only
    joins the question in. *)
Definition count_bookmarks (rows : gmap nat (nat * nat)) (u : nat) : nat :=
  size (filter (λ row : nat * (nat * nat), row.2.2 = u) rows).


(** [delete]: the inherited [delete] refuses an instance without a primary
    key ([None] here), removes the row and clears the instance's key; then
    the user's [bookmarks_count] is recomputed and the user saved. *)
Definition QuestionBookmark_delete (db : Database) (self : QuestionBookmark)
  : option (Database * QuestionBookmark) :=
  k ← pk self;
  let rows := delete k (bookmarks db) in
  Some ({| bookmarks := rows;
           bookmarks_count :=
             <[user self := count_bookmarks rows (user self)]>
               (bookmarks_count db) |},
        {| pk := None; question := question self; user := user self |}).

(** Every user's [bookmarks_count] is the number of the user's bookmarks. *)
Definition counts_consistent (db : Database) : Prop :=
  ∀ u c, bookmarks_count db !! u = Some c → c = count_bookmarks (bookmarks db) u.

(** ** Specification-side vocabulary for the dedenter

    These follow the wording of the specification, not the code; the
    theorems below relate them to the functions above. *)

(** Indices of the fence markers (lines containing the triple backtick), in
    document order; [i] is the index of the head of [lines]. *)
Fixpoint marker_indices_from (i : nat) (lines : list (list ascii)) : list nat :=
  match lines with
  | [] => []
  | line :: rest =>
      if contains fence line then i :: marker_indices_from (S i) rest
      else marker_indices_from (S i) rest
  end.

Definition marker_indices (lines : list (list ascii)) : list nat :=
  marker_indices_from 0 lines.

(** Strict alternation: 1st marker opens, 2nd closes, 3rd opens, ...; a
    final unmatched marker yields nothing. *)
Fixpoint pair_up (ms : list nat) : list (nat * nat) :=
  match ms with
  | a :: b :: rest => (a, b) :: pair_up rest
  | _ => []
  end.

(** Length of the leading whitespace run of a line: the number of
    characters before its first non-whitespace character. *)
Fixpoint leading_whitespace (l : list ascii) : nat :=
  match l with
  | c :: l' => if isspace c then S (leading_whitespace l') else 0
  | [] => 0
  end.

(** Index [j] is a body line of the span [(a, b)]. *)
Definition in_body (a b j : nat) : Prop := (a < j < b)%nat.

Global Instance in_body_dec a b j : Decision (in_body a b j).
Proof. unfold in_body. apply _. Defined.

(** Index [j] is a body line of one of the spans. *)
Definition in_some_body (sections : list (nat * nat)) (j : nat) : Prop :=
  ∃ a b, (a, b) ∈ sections ∧ in_body a b j.

(** Span [x] closes before span [y] opens. *)
Definition span_before (x y : nat * nat) : Prop := (x.2 < y.1)%nat.

(** Number of leading U+0020 characters of a line. *)
Fixpoint leading_spaces (l : list ascii) : nat :=
  match l with
  | c :: l' => if decide (c = space) then S (leading_spaces l') else 0%nat
  | [] => 0%nat
  end.

(** Two-line and longer literals: [nl a b] is [a], a newline, [b]. *)
Definition nl (a b : string) : string := String.append a (String newline b).

(** ** Facts about the string primitives *)

Lemma startswith_prefix (sub s : list ascii) :
  startswith sub s = true ↔ sub `prefix_of` s.
Proof.
  revert s. induction sub as [|a sub IH]; intros [|c s]; simpl.
  - split; [intros _; apply prefix_nil | done].
  - split; [intros _; apply prefix_nil | done].
  - split; [done | intros H; by apply prefix_nil_not in H].
  - case_decide as Hac.
    + subst c. rewrite IH. split; [apply prefix_cons | apply prefix_cons_inv_2].
    + split; [done | intros H; by apply prefix_cons_inv_1 in H].
Qed.

Lemma contains_infix (sub s : list ascii) :
  contains sub s = true ↔ ∃ p q, s = p ++ sub ++ q.
Proof.
  induction s as [|c s IH].
  - simpl. rewrite orb_false_r, startswith_prefix. split.
    + intros [q ->]. by exists [], q.
    + intros (p & q & H). symmetry in H.
      apply app_eq_nil in H as [-> H]. apply app_eq_nil in H as [-> ->].
      done.
  - simpl. rewrite orb_true_iff, startswith_prefix, IH. split.
    + intros [[q ->] | (p & q & ->)]; [by exists [], q | by exists (c :: p), q].
    + intros ([|c' p] & q & H); simpl in H.
      * left. by exists q.
      * right. injection H as -> ->. by exists p, q.
Qed.

Lemma contains_false_suffix (sub s t : list ascii) :
  t `suffix_of` s → contains sub s = false → contains sub t = false.
Proof.
  intros [k ->] H. apply not_true_is_false. intros Ht.
  apply contains_infix in Ht as (p & q & ->).
  assert (contains sub (k ++ p ++ sub ++ q) = true) as Hc; [|congruence].
  apply contains_infix. exists (k ++ p), q. by rewrite <- app_assoc.
Qed.

Lemma slice_from_suffix (s : list ascii) (d : Z) : slice_from s d `suffix_of` s.
Proof. unfold slice_from. case_match; apply suffix_drop. Qed.

Lemma slice_from_0 (s : list ascii) : slice_from s 0 = s.
Proof. done. Qed.

(** *** [split] and [join] *)

Lemma split_lines_cons (s : list ascii) :
  ∃ l ls, split_lines s = l :: ls.
Proof.
  induction s as [|c s (l & ls & IH)]; simpl; [by eauto|].
  case_decide; [by eauto|]. rewrite IH. by eauto.
Qed.

Lemma split_lines_length (s : list ascii) : (0 < length (split_lines s))%nat.
Proof. destruct (split_lines_cons s) as (l & ls & ->). simpl. lia. Qed.

Lemma split_lines_no_newline (s : list ascii) :
  Forall (λ l, newline ∉ l) (split_lines s).
Proof.
  induction s as [|c s IH]; simpl.
  - repeat constructor. apply not_elem_of_nil.
  - case_decide.
    + constructor; [apply not_elem_of_nil | done].
    + destruct (split_lines_cons s) as (l & ls & Hs). rewrite Hs in *.
      inversion_clear IH. constructor; [|done].
      apply not_elem_of_cons. split; [congruence | done].
Qed.

Lemma join_split_lines (s : list ascii) : join_lines (split_lines s) = s.
Proof.
  induction s as [|c s IH]; [done|]. simpl.
  destruct (split_lines_cons s) as (l & ls & Hs). rewrite Hs in *.
  case_decide as Hc.
  - subst c. by rewrite <- IH.
  - rewrite <- IH. by destruct ls.
Qed.

Lemma split_lines_app_newline (l s : list ascii) :
  newline ∉ l → split_lines (l ++ newline :: s) = l :: split_lines s.
Proof.
  induction l as [|c l IH]; intros Hl; simpl.
  - done.
  - apply not_elem_of_cons in Hl as [Hc Hl].
    case_decide; [congruence|]. by rewrite IH.
Qed.

Lemma split_lines_one (l : list ascii) : newline ∉ l → split_lines l = [l].
Proof.
  induction l as [|c l IH]; intros Hl; [done|]. simpl.
  apply not_elem_of_cons in Hl as [Hc Hl].
  case_decide; [congruence|]. by rewrite IH.
Qed.

Lemma split_join_lines (lines : list (list ascii)) :
  lines ≠ [] → Forall (λ l, newline ∉ l) lines →
  split_lines (join_lines lines) = lines.
Proof.
  induction lines as [|l ls IH]; [done|]. intros _ Hall.
  inversion_clear Hall as [|? ? Hl Hls].
  destruct ls as [|l' ls]; [by apply split_lines_one|].
  change (join_lines (l :: l' :: ls)) with (l ++ newline :: join_lines (l' :: ls)).
  rewrite split_lines_app_newline by done. by rewrite IH.
Qed.

Lemma split_lines_infix (s l : list ascii) :
  l ∈ split_lines s → ∃ p q, s = p ++ l ++ q.
Proof.
  intros Hl. rewrite <- (join_split_lines s).
  induction (split_lines s) as [|l0 ls IH]; [by apply elem_of_nil in Hl|].
  apply elem_of_cons in Hl as [-> | Hl].
  - destruct ls as [|l1 ls]; simpl.
    + exists [], []. by rewrite app_nil_r.
    + by exists [], (newline :: join_lines (l1 :: ls)).
  - destruct (IH Hl) as (p & q & Hpq).
    destruct ls as [|l1 ls]; [by apply elem_of_nil in Hl|].
    change (join_lines (l0 :: l1 :: ls))
      with (l0 ++ newline :: join_lines (l1 :: ls)).
    rewrite Hpq. exists (l0 ++ newline :: p), q.
    by rewrite <- app_assoc.
Qed.

Lemma contains_false_split_lines (sub s : list ascii) :
  contains sub s = false →
  Forall (λ l, contains sub l = false) (split_lines s).
Proof.
  intros Hs. apply Forall_forall. intros l Hl.
  apply split_lines_infix in Hl as (p & q & ->).
  apply not_true_is_false. intros Hc.
  apply contains_infix in Hc as (p' & q' & ->).
  assert (contains sub (p ++ (p' ++ sub ++ q') ++ q) = true) as Hc; [|congruence].
  apply contains_infix. exists (p ++ p'), (q' ++ q).
  by rewrite <- !app_assoc.
Qed.

(** ** Fence pairing *)

Lemma pair_up_ind (P : list nat → Prop) :
  P [] → (∀ a, P [a]) → (∀ a b rest, P rest → P (a :: b :: rest)) →
  ∀ ms, P ms.
Proof.
  intros H0 H1 H2 ms.
  assert (P ms ∧ ∀ a, P (a :: ms)) as [? _]; [|done].
  induction ms as [|b ms [IH1 IH2]]; [by split|].
  split; [apply IH2|]. intros a. by apply H2.
Qed.

Lemma find_code_blocks_loop_pair_up lines :
  ∀ i res,
    find_code_blocks_loop lines i None res
      = res ++ pair_up (marker_indices_from i lines) ∧
    ∀ s, find_code_blocks_loop lines i (Some s) res
      = res ++ pair_up (s :: marker_indices_from i lines).
Proof.
  induction lines as [|line rest IH]; intros i res; simpl.
  - split; [|intros s]; by rewrite app_nil_r.
  - destruct (contains fence line).
    + split; [apply IH|]. intros s.
      destruct (IH (S i) (res ++ [(s, i)])) as [-> _].
      by rewrite <- app_assoc.
    + apply IH.
Qed.

Lemma find_code_blocks_pair_up lines :
  _find_code_blocks lines = pair_up (marker_indices lines).
Proof. apply (find_code_blocks_loop_pair_up lines 0 []). Qed.

Lemma elem_of_marker_indices_from lines : ∀ i m,
  m ∈ marker_indices_from i lines ↔
  (i ≤ m)%nat ∧ ∃ l, lines !! (m - i)%nat = Some l ∧ contains fence l = true.
Proof.
  induction lines as [|line rest IH]; intros i m; simpl.
  - rewrite elem_of_nil. split; [done|]. by intros (_ & l & Hl & _).
  - assert (m ∈ marker_indices_from (S i) rest ↔
            (i < m)%nat ∧ ∃ l, (line :: rest) !! (m - i)%nat = Some l
                               ∧ contains fence l = true) as Hrest.
    { rewrite IH. split.
      - intros (Hle & l & Hl & Hc). split; [lia|]. exists l. split; [|done].
        replace (m - i)%nat with (S (m - S i)) by lia. done.
      - intros (Hlt & l & Hl & Hc). split; [lia|]. exists l. split; [|done].
        replace (m - i)%nat with (S (m - S i)) in Hl by lia. done. }
    destruct (contains fence line) eqn:Hline.
    + rewrite elem_of_cons, Hrest. split.
      * intros [-> | (Hlt & l & Hl & Hc)].
        -- split; [lia|]. exists line. by rewrite Nat.sub_diag.
        -- split; [lia|]. by exists l.
      * intros (Hle & l & Hl & Hc).
        destruct (decide (m = i)) as [->|]; [by left|].
        right. split; [lia|]. by exists l.
    + rewrite Hrest. split.
      * intros (Hlt & l & Hl & Hc). split; [lia|]. by exists l.
      * intros (Hle & l & Hl & Hc).
        destruct (decide (m = i)) as [->|].
        -- rewrite Nat.sub_diag in Hl. simpl in Hl. congruence.
        -- split; [lia|]. by exists l.
Qed.

Lemma marker_indices_from_sorted lines : ∀ i,
  StronglySorted lt (marker_indices_from i lines).
Proof.
  induction lines as [|line rest IH]; intros i; simpl; [constructor|].
  destruct (contains fence line); [|apply IH].
  constructor; [apply IH|]. apply Forall_forall. intros m Hm.
  apply elem_of_marker_indices_from in Hm. lia.
Qed.

Lemma elem_of_marker_indices lines m :
  m ∈ marker_indices lines ↔
  ∃ l, lines !! m = Some l ∧ contains fence l = true.
Proof.
  unfold marker_indices. rewrite elem_of_marker_indices_from, Nat.sub_0_r.
  split; [by intros [_ H] | intros H; split; [lia | done]].
Qed.

Lemma marker_indices_lt lines m :
  m ∈ marker_indices lines → (m < length lines)%nat.
Proof.
  rewrite elem_of_marker_indices. intros (l & Hl & _).
  by apply lookup_lt_Some in Hl.
Qed.

Lemma pair_up_elem_of ms a b :
  (a, b) ∈ pair_up ms → a ∈ ms ∧ b ∈ ms.
Proof.
  induction ms as [| |a' b' rest IH] using pair_up_ind; simpl.
  - by rewrite elem_of_nil.
  - by rewrite elem_of_nil.
  - rewrite !elem_of_cons. intros [[= -> ->] | H]; [by auto|].
    destruct (IH H). by auto.
Qed.

Lemma pair_up_lt ms a b :
  StronglySorted lt ms → (a, b) ∈ pair_up ms → (a < b)%nat.
Proof.
  induction ms as [| |a' b' rest IH] using pair_up_ind; simpl.
  - by rewrite elem_of_nil.
  - by rewrite elem_of_nil.
  - intros Hs. apply StronglySorted_inv in Hs as [Hs Ha].
    apply StronglySorted_inv in Hs as [Hs Hb].
    rewrite elem_of_cons. intros [[= -> ->] | H]; [|by apply IH].
    by inversion Ha.
Qed.

(** Every recognized span lies inside the document. *)
Lemma find_code_blocks_bounds lines a b :
  (a, b) ∈ _find_code_blocks lines → (a < b < length lines)%nat.
Proof.
  rewrite find_code_blocks_pair_up. intros H. split.
  - eapply pair_up_lt; [apply marker_indices_from_sorted | done].
  - apply pair_up_elem_of in H as [_ H]. by apply marker_indices_lt.
Qed.

(** ** One code block *)

Lemma elem_of_range a b j : j ∈ range a b ↔ (a ≤ j < b)%nat.
Proof. unfold range. rewrite elem_of_seq. lia. Qed.

Lemma NoDup_range a b : NoDup (range a b).
Proof. apply NoDup_seq. Qed.

(** A list whose lookups are those of [lines] under a line-wise map has the
    length of [lines]. *)
Lemma lookup_fmap_length (f : nat → list ascii → list ascii)
    (lines lines' : list (list ascii)) :
  (∀ j, lines' !! j = f j <$> lines !! j) → length lines' = length lines.
Proof.
  intros H.
  destruct (Nat.lt_trichotomy (length lines') (length lines)) as [Hlt|[?|Hlt]];
    [|done|]; exfalso.
  - apply lookup_lt_is_Some in Hlt as [l Hl].
    specialize (H (length lines')). rewrite Hl in H. simpl in H.
    apply lookup_lt_Some in H. lia.
  - apply lookup_lt_is_Some in Hlt as [l Hl].
    specialize (H (length lines)). rewrite Hl in H.
    rewrite (proj2 (lookup_ge_None lines (length lines))) in H by lia. done.
Qed.

Lemma slice_loop_spec (d : Z) (idx : list nat) : ∀ lines : list (list ascii),
  NoDup idx → (∀ i, i ∈ idx → (i < length lines)%nat) →
  ∃ lines', slice_loop lines idx d = Some lines' ∧
    ∀ j, lines' !! j
         = (λ l, if decide (j ∈ idx) then slice_from l d else l) <$> lines !! j.
Proof.
  induction idx as [|i idx IH]; intros lines Hnd Hlt; simpl.
  - exists lines. split; [done|]. intros j.
    by destruct (lines !! j).
  - apply NoDup_cons in Hnd as [Hi Hnd].
    destruct (lookup_lt_is_Some_2 lines i) as [l Hl]; [apply Hlt; left|].
    rewrite Hl. simpl.
    destruct (IH (<[i := slice_from l d]> lines) Hnd) as (lines' & Hrun & Hlook).
    { intros k Hk. rewrite length_insert. apply Hlt. by right. }
    exists lines'. split; [done|]. intros j. rewrite Hlook.
    destruct (decide (j = i)) as [->|Hne].
    + rewrite list_lookup_insert_eq by (apply Hlt; left).
      rewrite Hl. simpl. rewrite decide_False by done.
      by rewrite decide_True by left.
    + rewrite list_lookup_insert_ne by done.
      destruct (lines !! j) as [lj|]; simpl; [|done]. f_equal.
      destruct (decide (j ∈ idx)) as [Hin|Hnin].
      * by rewrite decide_True by (by right).
      * rewrite decide_False; [done|]. rewrite elem_of_cons.
        by intros [? | ?].
Qed.

Lemma line_start_loop_is_Some (lines : list (list ascii)) (idx : list nat) :
  ∀ acc, (∀ i, i ∈ idx → (i < length lines)%nat) →
  is_Some (line_start_loop lines idx acc).
Proof.
  induction idx as [|i idx IH]; intros acc Hlt; simpl; [by eexists|].
  destruct (lookup_lt_is_Some_2 lines i) as [l Hl]; [apply Hlt; left|].
  rewrite Hl. simpl. apply IH. intros k Hk. apply Hlt. by right.
Qed.

Lemma dedent_chars_of_is_Some (lines : list (list ascii)) (a b : nat) :
  (a < length lines)%nat → (b ≤ length lines)%nat →
  is_Some (dedent_chars_of lines a b).
Proof.
  intros Ha Hb. unfold dedent_chars_of.
  destruct (lookup_lt_is_Some_2 lines a Ha) as [fl ->]. simpl.
  destruct (line_start_loop_is_Some lines (range (a + 1) b) sys_maxsize)
    as [m ->]; [|by eexists].
  intros i Hi. apply elem_of_range in Hi. lia.
Qed.

(** The effect of [_dedent_code_block] on a span inside the document: it
    succeeds, and each body line is sliced by the span's [dedent_chars]
    while every other line is kept. *)
Lemma dedent_code_block_spec (lines : list (list ascii)) (a b : nat) :
  (a < length lines)%nat → (b ≤ length lines)%nat →
  ∃ d lines', dedent_chars_of lines a b = Some d ∧
    _dedent_code_block lines a b = Some lines' ∧
    ∀ j, lines' !! j
         = (λ l, if decide (in_body a b j) then slice_from l d else l)
             <$> lines !! j.
Proof.
  intros Ha Hb. unfold _dedent_code_block.
  destruct (dedent_chars_of_is_Some lines a b Ha Hb) as [d Hd].
  rewrite Hd. simpl. exists d.
  destruct (Z.eqb_spec d 0) as [->|Hd0].
  - exists lines. do 2 (split; [done|]). intros j.
    destruct (lines !! j); simpl; [|done]. by case_decide.
  - destruct (slice_loop_spec d (range (a + 1) b) lines) as (lines' & Hrun & Hlook).
    { apply NoDup_range. }
    { intros i Hi. apply elem_of_range in Hi. lia. }
    exists lines'. do 2 (split; [done|]). intros j. rewrite Hlook.
    destruct (lines !! j); simpl; [|done]. f_equal.
    destruct (decide (in_body a b j)) as [Hin|Hnin].
    + rewrite decide_True; [done|]. apply elem_of_range. unfold in_body in Hin. lia.
    + rewrite decide_False; [done|]. rewrite elem_of_range. unfold in_body in Hnin. lia.
Qed.

(** ** All code blocks *)

(** What the section loop guarantees whatever the spans' [dedent_chars]
    are: it succeeds, each line ends up a suffix of what it was, and lines
    that are no body line of any span are kept. *)
Lemma dedent_sections_spec (sections : list (nat * nat)) :
  ∀ lines : list (list ascii),
  (∀ a b, (a, b) ∈ sections → (a < b < length lines)%nat) →
  ∃ lines', dedent_sections lines sections = Some lines' ∧
    Forall2 (λ l' l, l' `suffix_of` l) lines' lines ∧
    ∀ j, ¬ in_some_body sections j → lines' !! j = lines !! j.
Proof.
  induction sections as [|[a b] rest IH]; intros lines Hb; simpl.
  - exists lines. split; [done|]. split; [|done].
    apply Forall2_same_length_lookup_2; [done|]. intros i x y Hx Hy.
    by replace y with x by congruence.
  - destruct (Hb a b) as [Hab Hblen]; [left|].
    destruct (dedent_code_block_spec lines a b) as (d & lines1 & _ & Hrun & Hlook);
      [lia..|].
    rewrite Hrun. simpl.
    pose proof (lookup_fmap_length _ _ _ Hlook) as Hlen.
    destruct (IH lines1) as (lines' & Hrest & Hsuf & Hframe).
    { intros a' b' Hin. rewrite Hlen. apply Hb. by right. }
    exists lines'. split; [done|]. split.
    + apply Forall2_same_length_lookup_2.
      { apply Forall2_length in Hsuf. lia. }
      intros i x y Hx Hy.
      destruct (Forall2_lookup_l _ _ _ _ _ Hsuf Hx) as (z & Hz & Hxz).
      rewrite Hlook, Hy in Hz. simpl in Hz. injection Hz as <-.
      etrans; [done|]. case_decide; [apply slice_from_suffix | done].
    + intros j Hj. rewrite Hframe, Hlook.
      * destruct (lines !! j); simpl; [|done].
        rewrite decide_False; [done|]. intros Hin. apply Hj.
        exists a, b. split; [left | done].
      * intros (a' & b' & Hin & Hbody). apply Hj.
        exists a', b'. split; [by right | done].
Qed.

Lemma pair_up_gt_head ms a b x :
  StronglySorted lt (x :: ms) → (a, b) ∈ pair_up ms → (x < a)%nat.
Proof.
  intros Hs Hin. apply StronglySorted_inv in Hs as [_ Hx].
  apply pair_up_elem_of in Hin as [Ha _].
  by apply (proj1 (Forall_forall _ _) Hx).
Qed.

(** No fence marker lies strictly inside a span. *)
Lemma pair_up_no_marker_inside ms a b m :
  StronglySorted lt ms → (a, b) ∈ pair_up ms → m ∈ ms → ¬ in_body a b m.
Proof.
  unfold in_body.
  induction ms as [| |a' b' rest IH] using pair_up_ind; simpl.
  - by rewrite elem_of_nil.
  - by rewrite elem_of_nil.
  - intros Hs Hin Hm.
    pose proof Hs as Hs0.
    apply StronglySorted_inv in Hs as [Hs Ha].
    pose proof Hs as Hs1.
    apply StronglySorted_inv in Hs as [Hs Hb].
    assert (a' < b')%nat as Hab by (by inversion Ha).
    apply elem_of_cons in Hin as [Heq | Hin].
    + injection Heq as -> ->.
      apply elem_of_cons in Hm as [-> | Hm]; [lia|].
      apply elem_of_cons in Hm as [-> | Hm]; [lia|].
      pose proof (proj1 (Forall_forall _ _) Hb m Hm). lia.
    + pose proof (pair_up_gt_head _ _ _ _ Hs1 Hin) as Hgt.
      apply elem_of_cons in Hm as [-> | Hm]; [lia|].
      apply elem_of_cons in Hm as [-> | Hm]; [lia|].
      by apply IH.
Qed.

(** In a document with an odd number of markers every span closes before
    the last marker. *)
Lemma pair_up_odd_before_last ms a b m :
  StronglySorted lt ms → Nat.Odd (length ms) → last ms = Some m →
  (a, b) ∈ pair_up ms → (b < m)%nat.
Proof.
  induction ms as [| |a' b' rest IH] using pair_up_ind; simpl.
  - by rewrite elem_of_nil.
  - by rewrite elem_of_nil.
  - intros Hs Hodd Hlast Hin.
    apply StronglySorted_inv in Hs as [Hs Ha].
    apply StronglySorted_inv in Hs as [Hs Hb].
    assert (Nat.Odd (length rest)) as Hodd'.
    { destruct Hodd as [k Hk]. exists (k - 1)%nat. lia. }
    destruct rest as [|r rest]; [by destruct Hodd' as [k Hk]; simpl in Hk; lia|].
    assert (last (r :: rest) = Some m) as Hlast' by done.
    apply elem_of_cons in Hin as [Heq | Hin].
    + injection Heq as -> ->.
      apply last_Some_elem_of in Hlast'.
      by apply (proj1 (Forall_forall _ _) Hb).
    + by apply IH.
Qed.

Lemma marker_not_in_some_body (lines : list (list ascii)) (m : nat) :
  m ∈ marker_indices lines → ¬ in_some_body (_find_code_blocks lines) m.
Proof.
  intros Hm (a & b & Hin & Hbody). rewrite find_code_blocks_pair_up in Hin.
  by eapply pair_up_no_marker_inside;
    [apply (marker_indices_from_sorted lines 0) | ..].
Qed.

Lemma find_code_blocks_markers (lines : list (list ascii)) (a b : nat) :
  (a, b) ∈ _find_code_blocks lines →
  a ∈ marker_indices lines ∧ b ∈ marker_indices lines.
Proof. rewrite find_code_blocks_pair_up. apply pair_up_elem_of. Qed.

(** ** The whole function *)

Lemma suffix_no_newline (l l' : list ascii) :
  l' `suffix_of` l → newline ∉ l → newline ∉ l'.
Proof. intros [k ->] H Hin. apply H, elem_of_app. by right. Qed.

(** [dedent_code] always returns; the lines it joins are the lines its
    result splits into, each a suffix of the input line at its index, and
    only body lines of recognized spans differ from the input. *)
Lemma dedent_code_spec (s : list ascii) :
  ∃ lines', dedent_code s = Some (join_lines lines') ∧
    split_lines (join_lines lines') = lines' ∧
    Forall2 (λ l' l, l' `suffix_of` l) lines' (split_lines s) ∧
    ∀ j, ¬ in_some_body (_find_code_blocks (split_lines s)) j →
         lines' !! j = split_lines s !! j.
Proof.
  destruct (dedent_sections_spec (_find_code_blocks (split_lines s))
              (split_lines s)) as (lines' & Hrun & Hsuf & Hframe).
  { intros a b. apply find_code_blocks_bounds. }
  exists lines'. unfold dedent_code, dedent_code_lines. rewrite Hrun.
  split; [done|]. split; [|done].
  apply split_join_lines.
  - intros ->. apply Forall2_length in Hsuf.
    pose proof (split_lines_length s). simpl in Hsuf. lia.
  - apply Forall_lookup. intros i l' Hl'.
    destruct (Forall2_lookup_l _ _ _ _ _ Hsuf Hl') as (l & Hl & Hsl).
    eapply suffix_no_newline; [done|].
    by apply (proj1 (Forall_lookup _ _) (split_lines_no_newline s) i).
Qed.

(** ** Indentation of the body *)

Lemma lstrip_leading_whitespace (l : list ascii) :
  len l - len (lstrip l) = Z.of_nat (leading_whitespace l).
Proof.
  unfold len. induction l as [|c l IH]; simpl; [done|].
  destruct (isspace c); simpl; lia.
Qed.

Lemma leading_whitespace_le (l : list ascii) :
  (leading_whitespace l ≤ length l)%nat.
Proof. induction l as [|c l IH]; simpl; [done|]. destruct (isspace c); lia. Qed.

(** The first loop leaves the minimum of its start value and of the
    indentations of the lines it visits. *)
Lemma line_start_loop_min (lines : list (list ascii)) (idx : list nat) :
  ∀ acc m, line_start_loop lines idx acc = Some m →
    m ≤ acc ∧
    (∀ i l, i ∈ idx → lines !! i = Some l → m ≤ Z.of_nat (leading_whitespace l)) ∧
    (m = acc ∨
     ∃ i l, i ∈ idx ∧ lines !! i = Some l ∧ m = Z.of_nat (leading_whitespace l)).
Proof.
  induction idx as [|i idx IH]; intros acc m; simpl.
  - intros [= ->]. split; [lia|]. split; [|by left].
    intros i l Hi. by apply elem_of_nil in Hi.
  - destruct (lines !! i) as [li|] eqn:Hli; simpl; [|done].
    rewrite lstrip_leading_whitespace. intros Hrun.
    destruct (IH _ _ Hrun) as (Hle & Hall & Hatt).
    split; [lia|]. split.
    + intros k l Hk Hl. apply elem_of_cons in Hk as [-> | Hk]; [|by eapply Hall].
      replace l with li by congruence. lia.
    + destruct Hatt as [-> | (k & l & Hk & Hl & ->)].
      * destruct (Z.min_spec acc (Z.of_nat (leading_whitespace li)))
          as [[_ ->] | [_ ->]]; [by left|].
        right. exists i, li. split; [left | done].
      * right. exists k, l. split; [by right | done].
Qed.

(** [dedent_chars] of a span with a body: the least leading-whitespace run
    of the body lines, minus the offset of the fence in the opening line. *)
Lemma dedent_chars_of_min_indent (lines : list (list ascii)) (a b : nat) :
  Forall (λ l, len l ≤ sys_maxsize) lines →
  (a + 1 < b ≤ length lines)%nat →
  ∃ (fence_line : list ascii) (minBodyIndent : nat),
    lines !! a = Some fence_line ∧
    dedent_chars_of lines a b
      = Some (Z.of_nat minBodyIndent - find fence fence_line) ∧
    (∃ j l, in_body a b j ∧ lines !! j = Some l ∧
            leading_whitespace l = minBodyIndent) ∧
    (∀ j l, in_body a b j → lines !! j = Some l →
            (minBodyIndent ≤ leading_whitespace l)%nat).
Proof.
  intros Hmax [Hab Hb].
  destruct (lookup_lt_is_Some_2 lines a) as [fl Hfl]; [lia|].
  destruct (dedent_chars_of_is_Some lines a b) as [d Hd]; [lia..|].
  unfold dedent_chars_of in *. rewrite Hfl in *. simpl in *.
  destruct (line_start_loop lines (range (a + 1) b) sys_maxsize)
    as [r|] eqn:Hr; simpl in *; [|done].
  destruct (line_start_loop_min _ _ _ _ Hr) as (Hle & Hall & Hatt).
  assert (∃ j l, in_body a b j ∧ lines !! j = Some l ∧
                 r = Z.of_nat (leading_whitespace l)) as (j & l & Hj & Hl & ->).
  { destruct Hatt as [-> | (j & l & Hj & Hl & ->)].
    - destruct (lookup_lt_is_Some_2 lines (a + 1)) as [l Hl]; [lia|].
      exists (a + 1)%nat, l. split; [unfold in_body; lia|]. split; [done|].
      assert (sys_maxsize ≤ Z.of_nat (leading_whitespace l)) as Hge.
      { eapply Hall; [|done]. apply elem_of_range. lia. }
      pose proof (leading_whitespace_le l).
      pose proof (proj1 (Forall_lookup _ _) Hmax _ _ Hl) as Hlen.
      unfold len in Hlen. simpl in Hlen. lia.
    - exists j, l. split; [|done]. apply elem_of_range in Hj.
      unfold in_body. lia. }
  exists fl, (leading_whitespace l). split; [done|]. split.
  { do 2 f_equal. lia. }
  split; [by exists j, l|].
  intros k lk Hk Hlk.
  assert (Z.of_nat (leading_whitespace l) ≤ Z.of_nat (leading_whitespace lk));
    [|lia].
  eapply Hall; [|done]. apply elem_of_range. unfold in_body in Hk. lia.
Qed.

(** ** The spans are processed independently *)

Lemma pair_up_sorted ms :
  StronglySorted lt ms → StronglySorted span_before (pair_up ms).
Proof.
  induction ms as [| |a b rest IH] using pair_up_ind; simpl;
    [constructor | constructor |].
  intros Hs. apply StronglySorted_inv in Hs as [Hs Ha].
  apply StronglySorted_inv in Hs as [Hs Hb].
  constructor; [by apply IH|]. apply Forall_forall. intros [a' b'] Hin.
  apply pair_up_elem_of in Hin as [Ha' _]. unfold span_before. simpl.
  by apply (proj1 (Forall_forall _ _) Hb).
Qed.

Lemma find_code_blocks_sorted (lines : list (list ascii)) :
  StronglySorted span_before (_find_code_blocks lines).
Proof.
  rewrite find_code_blocks_pair_up.
  apply pair_up_sorted, (marker_indices_from_sorted lines 0).
Qed.

Lemma line_start_loop_ext (lines1 lines2 : list (list ascii)) (idx : list nat) :
  ∀ acc, (∀ i, i ∈ idx → lines1 !! i = lines2 !! i) →
  line_start_loop lines1 idx acc = line_start_loop lines2 idx acc.
Proof.
  induction idx as [|i idx IH]; intros acc Heq; simpl; [done|].
  rewrite (Heq i) by left. destruct (lines2 !! i); simpl; [|done].
  apply IH. intros k Hk. apply Heq. by right.
Qed.

(** [dedent_chars] of a span only reads the opening fence line and the
    body lines. *)
Lemma dedent_chars_of_ext (lines1 lines2 : list (list ascii)) (a b : nat) :
  (∀ j, (a ≤ j < b)%nat → lines1 !! j = lines2 !! j) →
  lines1 !! a = lines2 !! a →
  dedent_chars_of lines1 a b = dedent_chars_of lines2 a b.
Proof.
  intros Heq Ha. unfold dedent_chars_of. rewrite Ha.
  destruct (lines2 !! a); simpl; [|done].
  rewrite (line_start_loop_ext lines1 lines2); [done|].
  intros i Hi. apply elem_of_range in Hi. apply Heq. lia.
Qed.

(** Every body line of a span is sliced by the span's [dedent_chars], as
    computed on the lines the section loop started from: the earlier spans
    have not touched what a later span reads. *)
Lemma dedent_sections_exact (sections : list (nat * nat)) :
  ∀ lines : list (list ascii),
  StronglySorted span_before sections →
  (∀ a b, (a, b) ∈ sections → (a < b < length lines)%nat) →
  ∃ lines', dedent_sections lines sections = Some lines' ∧
    ∀ j a b d, (a, b) ∈ sections → in_body a b j →
               dedent_chars_of lines a b = Some d →
               lines' !! j = (λ l, slice_from l d) <$> lines !! j.
Proof.
  induction sections as [|[a0 b0] rest IH]; intros lines Hsorted Hb.
  - exists lines. split; [done|]. intros j a b d Hin. by apply elem_of_nil in Hin.
  - apply StronglySorted_inv in Hsorted as [Hsorted Hfirst].
    destruct (Hb a0 b0) as [Hab Hblen]; [left|].
    destruct (dedent_code_block_spec lines a0 b0)
      as (d0 & lines1 & Hd0 & Hrun & Hlook); [lia..|].
    pose proof (lookup_fmap_length _ _ _ Hlook) as Hlen.
    assert (∀ a b, (a, b) ∈ rest → (a < b < length lines1)%nat) as Hb1.
    { intros a b Hin. rewrite Hlen. apply Hb. by right. }
    destruct (IH lines1 Hsorted Hb1) as (lines' & Hrest & Hexact).
    destruct (dedent_sections_spec rest lines1 Hb1)
      as (lines'' & Hrest' & _ & Hframe).
    assert (lines'' = lines') as -> by congruence.
    exists lines'. split; [simpl; by rewrite Hrun|].
    intros j a b d Hin Hbody Hd.
    assert (∀ a' b', (a', b') ∈ rest → (b0 < a')%nat) as Hafter.
    { intros a' b' Hin'. apply (proj1 (Forall_forall _ _) Hfirst _ Hin'). }
    apply elem_of_cons in Hin as [Heq | Hin].
    + injection Heq as -> ->. replace d with d0 by congruence.
      rewrite Hframe, Hlook.
      * destruct (lines !! j); simpl; [|done]. by rewrite decide_True.
      * intros (a' & b' & Hin' & Hbody'). apply Hafter in Hin'.
        unfold in_body in *. lia.
    + pose proof (Hafter _ _ Hin) as Hlt.
      assert (∀ k, (a ≤ k)%nat → lines1 !! k = lines !! k) as Hsame.
      { intros k Hk. rewrite Hlook. destruct (lines !! k); simpl; [|done].
        rewrite decide_False; [done|]. unfold in_body. lia. }
      rewrite (Hexact j a b d Hin Hbody).
      * rewrite Hsame; [done|]. unfold in_body in Hbody. lia.
      * rewrite <- Hd. apply dedent_chars_of_ext; [|by apply Hsame].
        intros k Hk. apply Hsame. lia.
Qed.

Lemma in_some_body_Exists (sections : list (nat * nat)) (j : nat) :
  in_some_body sections j ↔ Exists (λ x, in_body x.1 x.2 j) sections.
Proof.
  rewrite Exists_exists. unfold in_some_body. split.
  - intros (a & b & Hin & Hbody). by exists (a, b).
  - intros ([a b] & Hin & Hbody). by exists a, b.
Qed.

Lemma in_some_body_dec (sections : list (nat * nat)) (j : nat) :
  in_some_body sections j ∨ ¬ in_some_body sections j.
Proof.
  rewrite in_some_body_Exists.
  destruct (decide (Exists (λ x, in_body x.1 x.2 j) sections)); by auto.
Qed.

Lemma find_nonneg (sub s : list ascii) :
  contains sub s = true → 0 ≤ find sub s.
Proof.
  induction s as [|c s IH]; simpl.
  - destruct (startswith sub []); [lia | done].
  - destruct (startswith sub (c :: s)); simpl; [lia|]. intros Hc.
    specialize (IH Hc). destruct (Z.ltb_spec (find sub s) 0); lia.
Qed.

Lemma slice_from_nonneg (l : list ascii) (d : Z) :
  0 ≤ d → slice_from l d = drop (Z.to_nat d) l.
Proof.
  intros Hd. unfold slice_from. destruct (Z.ltb_spec d 0); [lia | done].
Qed.

Lemma leading_whitespace_drop (l : list ascii) : ∀ n,
  (n ≤ leading_whitespace l)%nat →
  leading_whitespace (drop n l) = (leading_whitespace l - n)%nat.
Proof.
  induction l as [|c l IH]; intros [|n]; simpl; try done.
  - destruct (isspace c); lia.
  - destruct (isspace c); [|lia]. intros Hn. apply IH. lia.
Qed.

Lemma suffix_len (l l' : list ascii) : l' `suffix_of` l → len l' ≤ len l.
Proof. intros [k ->]. unfold len. rewrite length_app. lia. Qed.

Lemma split_lines_len (s l : list ascii) : l ∈ split_lines s → len l ≤ len s.
Proof.
  intros Hl. apply split_lines_infix in Hl as (p & q & ->).
  unfold len. rewrite !length_app. lia.
Qed.

(** The markers of a document only depend on which lines hold a fence. *)
Lemma marker_indices_from_ext (lines1 lines2 : list (list ascii)) :
  Forall2 (λ l1 l2, contains fence l1 = contains fence l2) lines1 lines2 →
  ∀ i, marker_indices_from i lines1 = marker_indices_from i lines2.
Proof.
  induction 1 as [|l1 l2 lines1 lines2 Hc _ IH]; intros i; simpl; [done|].
  rewrite Hc, (IH (S i)). done.
Qed.

(** [dedent_code], line by line: a body line of a recognized span is
    sliced by that span's [dedent_chars], every other line is kept. *)
Lemma dedent_code_exact (s : list ascii) :
  ∃ lines', dedent_code s = Some (join_lines lines') ∧
    split_lines (join_lines lines') = lines' ∧
    Forall2 (λ l' l, l' `suffix_of` l) lines' (split_lines s) ∧
    (∀ j, ¬ in_some_body (_find_code_blocks (split_lines s)) j →
          lines' !! j = split_lines s !! j) ∧
    (∀ j a b d, (a, b) ∈ _find_code_blocks (split_lines s) → in_body a b j →
                dedent_chars_of (split_lines s) a b = Some d →
                lines' !! j = (λ l, slice_from l d) <$> split_lines s !! j).
Proof.
  pose proof (find_code_blocks_bounds (split_lines s)) as Hb.
  destruct (dedent_sections_spec _ _ Hb) as (lines' & Hrun & Hsuf & Hframe).
  destruct (dedent_sections_exact _ _ (find_code_blocks_sorted _) Hb)
    as (lines'' & Hrun' & Hexact).
  assert (lines'' = lines') as -> by congruence.
  destruct (dedent_code_spec s) as (lines2 & Hcode & Hsplit & _).
  assert (join_lines lines2 = join_lines lines') as Hjoin.
  { unfold dedent_code, dedent_code_lines in Hcode. rewrite Hrun in Hcode.
    simpl in Hcode. congruence. }
  exists lines'. rewrite <- Hjoin at 1. split; [done|]. split; [|done].
  rewrite <- Hjoin, Hsplit. apply (f_equal split_lines) in Hjoin.
  rewrite Hsplit in Hjoin. rewrite Hjoin.
  apply split_join_lines.
  - intros ->. apply Forall2_length in Hsuf.
    pose proof (split_lines_length s). simpl in Hsuf. lia.
  - apply Forall_lookup. intros i l' Hl'.
    destruct (Forall2_lookup_l _ _ _ _ _ Hsuf Hl') as (l & Hl & Hsl).
    eapply suffix_no_newline; [done|].
    by apply (proj1 (Forall_lookup _ _) (split_lines_no_newline s) i).
Qed.

(** * The claims *)

(** C3: for a span with at least one body line, [dedent_chars] is
    [minBodyIndent - fenceColumn], where [minBodyIndent] is the minimum,
    over the lines strictly between the two fence lines, of the line's
    leading-whitespace run length, and [fenceColumn] is the offset of the
    fence in the opening line.  The minimum is stated by its two defining
    properties: some body line has it, and no body line has less.  (No
    Python string is longer than [sys.maxsize], the loop's start value.) *)
Theorem dedent_chars_min_body_indent (lines : list (list ascii)) (a b : nat) :
  Forall (λ l, len l ≤ sys_maxsize) lines →
  (a + 1 < b ≤ length lines)%nat →
  ∃ (fence_line : list ascii) (minBodyIndent : nat),
    lines !! a = Some fence_line ∧
    dedent_chars_of lines a b
      = Some (Z.of_nat minBodyIndent - find fence fence_line) ∧
    (∃ j l, in_body a b j ∧ lines !! j = Some l ∧
            leading_whitespace l = minBodyIndent) ∧
    (∀ j l, in_body a b j → lines !! j = Some l →
            (minBodyIndent ≤ leading_whitespace l)%nat).
Proof. apply dedent_chars_of_min_indent. Qed.

(** C4: the result of [dedent_code] splits into as many lines as the
    input. *)
Theorem dedent_code_line_count (s : list ascii) :
  ∃ out, dedent_code s = Some out ∧
         length (split_lines out) = length (split_lines s).
Proof.
  destruct (dedent_code_spec s) as (lines' & Hrun & Hsplit & Hsuf & _).
  exists (join_lines lines'). split; [done|].
  rewrite Hsplit. by apply Forall2_length in Hsuf.
Qed.

(** C5: [dedent_code] alters only leading characters of body lines of
    recognized spans: every output line is a suffix of the input line at
    its index, the two fence lines of every recognized span are the input's,
    and so is every line outside all spans. *)
Theorem dedent_code_frame (s : list ascii) :
  ∃ out, dedent_code s = Some out ∧
    (∀ j l l', split_lines s !! j = Some l → split_lines out !! j = Some l' →
               l' `suffix_of` l) ∧
    (∀ a b, (a, b) ∈ _find_code_blocks (split_lines s) →
            split_lines out !! a = split_lines s !! a ∧
            split_lines out !! b = split_lines s !! b) ∧
    (∀ j, (∀ a b, (a, b) ∈ _find_code_blocks (split_lines s) →
                  ¬ (a ≤ j ≤ b)%nat) →
          split_lines out !! j = split_lines s !! j).
Proof.
  destruct (dedent_code_spec s) as (lines' & Hrun & Hsplit & Hsuf & Hframe).
  exists (join_lines lines'). split; [done|]. rewrite Hsplit.
  split; [|split].
  - intros j l l' Hl Hl'. by eapply Forall2_lookup_lr.
  - intros a b Hab. apply find_code_blocks_markers in Hab as [Ha Hb].
    split; by apply Hframe, marker_not_in_some_body.
  - intros j Hout. apply Hframe. intros (a & b & Hab & Hbody).
    apply (Hout a b Hab). unfold in_body in Hbody. lia.
Qed.

(** C6: the spans are the fence markers paired by strict alternation in
    document order; with an odd number of markers every span closes before
    the last marker, which therefore opens none, and the lines from it
    onward are unchanged; an input with a single marker is returned
    unchanged. *)
Theorem fence_markers_paired_by_alternation :
  (∀ lines, _find_code_blocks lines = pair_up (marker_indices lines)) ∧
  (∀ s m,
     Nat.Odd (length (marker_indices (split_lines s))) →
     last (marker_indices (split_lines s)) = Some m →
     (∀ a b, (a, b) ∈ _find_code_blocks (split_lines s) → (b < m)%nat) ∧
     ∃ out, dedent_code s = Some out ∧
       ∀ j, (m ≤ j)%nat → split_lines out !! j = split_lines s !! j) ∧
  (∀ s m, marker_indices (split_lines s) = [m] → dedent_code s = Some s).
Proof.
  split; [apply find_code_blocks_pair_up|]. split.
  - intros s m Hodd Hlast.
    assert (∀ a b, (a, b) ∈ _find_code_blocks (split_lines s) → (b < m)%nat)
      as Hbefore.
    { intros a b Hab. rewrite find_code_blocks_pair_up in Hab.
      by eapply pair_up_odd_before_last;
        [apply (marker_indices_from_sorted (split_lines s) 0) | ..]. }
    split; [done|].
    destruct (dedent_code_spec s) as (lines' & Hrun & Hsplit & _ & Hframe).
    exists (join_lines lines'). split; [done|]. rewrite Hsplit.
    intros j Hj. apply Hframe. intros (a & b & Hab & Hbody).
    apply Hbefore in Hab. unfold in_body in Hbody. lia.
  - intros s m Hm. unfold dedent_code, dedent_code_lines.
    rewrite find_code_blocks_pair_up, Hm. simpl.
    by rewrite join_split_lines.
Qed.

(** C7: text without the triple backtick is returned as it is. *)
Theorem dedent_code_fenceless (s : list ascii) :
  contains fence s = false → dedent_code s = Some s.
Proof.
  intros Hs.
  assert (marker_indices (split_lines s) = []) as Hnone.
  { apply elem_of_nil_inv. intros m Hm.
    apply elem_of_marker_indices in Hm as (l & Hl & Hc).
    apply contains_false_split_lines in Hs.
    rewrite (proj1 (Forall_lookup _ _) Hs _ _ Hl) in Hc. done. }
  unfold dedent_code, dedent_code_lines.
  rewrite find_code_blocks_pair_up, Hnone. simpl.
  by rewrite join_split_lines.
Qed.

(** C8: [dedent_code] returns a string on every input; no indexing in it
    or in [_dedent_code_block] goes out of range. *)
Theorem dedent_code_total (s : list ascii) : ∃ out, dedent_code s = Some out.
Proof. destruct (dedent_code_spec s) as (lines' & Hrun & _). by eexists. Qed.

Lemma latest_in_tabs : "latest" ∈ tabs.
Proof. unfold tabs. set_solver. Qed.

(** C9: [get_request_tab] returns one of the four tab names; it is
    ['latest'] when the request has no ['tab'] parameter and when the
    parameter's value is none of the four. *)
Theorem get_request_tab_in_tabs :
  (∀ request, ∃ t, get_request_tab request = Some t ∧ t ∈ tabs) ∧
  (∀ request, GET request !! "tab" = None →
              get_request_tab request = Some "latest") ∧
  (∀ request vs, GET request !! "tab" = Some vs →
                 (∀ v, last vs = Some v → v ∉ tabs) →
                 get_request_tab request = Some "latest").
Proof.
  split; [|split].
  - intros request. unfold get_request_tab.
    destruct (get_request_param request "tab" (Some "latest")) as [t|].
    + case_decide; [by exists t|].
      exists "latest". split; [done | apply latest_in_tabs].
    + exists "latest". split; [done | apply latest_in_tabs].
  - intros request Hnone. unfold get_request_tab, get_request_param.
    case_decide as Hempty.
    + by rewrite decide_True by apply latest_in_tabs.
    + unfold querydict_get. rewrite Hnone.
      by rewrite decide_True by apply latest_in_tabs.
  - intros request vs Hvs Hout. unfold get_request_tab, get_request_param.
    case_decide as Hempty.
    + by rewrite decide_True by apply latest_in_tabs.
    + unfold querydict_get. rewrite Hvs.
      destruct (last vs) as [v|] eqn:Hlast.
      * by rewrite decide_False by (by apply Hout).
      * by rewrite decide_True by apply latest_in_tabs.
Qed.

(** C10, as amended: the thresholds are strict.  A value of at most 1000
    is returned as the integer itself; the abbreviations start strictly
    above 1000, 1000000 and 1000000000, so that 1000000 and 1000000000 are
    not abbreviated in their own tier but in the one below ('k' and 'm');
    [None] gives the empty string. *)
Theorem humanize_number_tiers :
  humanize_number None = Str "" ∧
  (∀ value, value ≤ 1000 → humanize_number (Some value) = Int value) ∧
  (∀ value, 1000 < value ≤ 1000000 →
            humanize_number (Some value) = Formatted (value / 100) "k") ∧
  (∀ value, 1000000 < value ≤ 1000000000 →
            humanize_number (Some value) = Formatted (value / 100000) "m") ∧
  (∀ value, 1000000000 < value →
            humanize_number (Some value) = Formatted (value / 100000000) "B").
Proof.
  split; [done|]. unfold humanize_number.
  repeat split; intros value Hv;
    repeat (case_match; try done);
    repeat match goal with
           | H : (_ <? _) = true |- _ => apply Z.ltb_lt in H
           | H : (_ <? _) = false |- _ => apply Z.ltb_ge in H
           end; lia.
Qed.

(** C10 as it is written fails at 1000000, which is abbreviated with 'k'. *)
Lemma humanize_number_million :
  humanize_number (Some 1000000) = Formatted 10000 "k" ∧
  humanize_number (Some 1000000) ≠ Int 1000000.
Proof. split; [reflexivity | discriminate]. Qed.

(** C1 at a block whose body is indented less than its fence: the fence
    is at column 2 and the body at column 0, [dedent_chars] is [-2], and
    the slice keeps the last two characters of the body line instead of
    putting two spaces in front of it. *)
Theorem negative_dedent_truncates :
  let s := py (nl "  ```" (nl "code" "  ```")) in
  _find_code_blocks (split_lines s) = [(0, 2)%nat] ∧
  dedent_chars_of (split_lines s) 0 2 = Some (-2) ∧
  dedent_code s = Some (py (nl "  ```" (nl "de" "  ```"))) ∧
  dedent_code s ≠ Some (py (nl "  ```" (nl "  code" "  ```"))).
Proof. vm_compute. repeat split; discriminate. Qed.

(** C2 at a block inside a block quote: the first pass keeps the last two
    characters of the body line, the second pass the last one. *)
Theorem dedent_code_twice_differs :
  let s := py (nl "> ```" (nl "> x = 1" "> ```")) in
  dedent_code s = Some (py (nl "> ```" (nl " 1" "> ```"))) ∧
  dedent_code (py (nl "> ```" (nl " 1" "> ```")))
    = Some (py (nl "> ```" (nl "1" "> ```"))) ∧
  dedent_code s ≫= dedent_code ≠ dedent_code s.
Proof. vm_compute. repeat split; discriminate. Qed.

(** * The body indentation, in spaces and in whitespace

    [str.lstrip()] removes every whitespace character, not only U+0020.
    Where a line is indented with spaces alone, its leading-whitespace run
    is its run of leading spaces; a tab counts as one character. *)
Lemma leading_spaces_le (l : list ascii) :
  (leading_spaces l ≤ leading_whitespace l)%nat.
Proof.
  induction l as [|c l IH]; simpl; [done|].
  case_decide as Hc; [|lia]. subst c.
  change (isspace space) with true. simpl. lia.
Qed.

Lemma leading_whitespace_spaces (l : list ascii) :
  (∀ c, drop (leading_spaces l) l !! 0%nat = Some c → isspace c = false) →
  leading_whitespace l = leading_spaces l.
Proof.
  induction l as [|c l IH]; simpl; [done|].
  case_decide as Hc.
  - subst c. change (isspace space) with true. intros H. f_equal. by apply IH.
  - intros H. by rewrite (H c).
Qed.

Example leading_whitespace_tab :
  leading_whitespace (py (String "009" "code")) = 1%nat ∧
  leading_spaces (py (String "009" "code")) = 0%nat.
Proof. split; reflexivity. Qed.

(** * Spans indented less than their fence *)

(** X12: where the [dedent_chars] of a recognized span is negative, each
    body line of the span ends up as its own last [|dedent_chars|]
    characters (the whole line when it is not longer than that): nothing is
    put in front of it. *)
Lemma dedent_code_negative_keeps_tail (s l : list ascii) (j a b : nat) (d : Z) :
  (a, b) ∈ _find_code_blocks (split_lines s) → in_body a b j →
  dedent_chars_of (split_lines s) a b = Some d → d < 0 →
  split_lines s !! j = Some l →
  ∃ out, dedent_code s = Some out ∧
         split_lines out !! j
           = Some (drop (length l - Z.to_nat (- d)) l).
Proof.
  intros Hab Hbody Hd Hneg Hl.
  destruct (dedent_code_exact s) as (L1 & Hrun & Hsplit & _ & _ & Hexact).
  exists (join_lines L1). split; [done|].
  rewrite Hsplit, (Hexact j a b d Hab Hbody Hd), Hl. simpl. f_equal.
  unfold slice_from, len. destruct (Z.ltb_spec d 0); [|lia].
  f_equal. lia.
Qed.

(** * Idempotence away from negative [dedent_chars] *)

(** X11: the second pass changes nothing as soon as no recognized span of
    the input has a negative [dedent_chars]: the first pass leaves the
    markers where they were and brings the least indented body line of each
    span to the fence column, so that the second pass computes
    [dedent_chars = 0]. *)
Theorem dedent_code_idempotent_nonneg (s : list ascii) :
  len s ≤ sys_maxsize →
  (∀ a b d, (a, b) ∈ _find_code_blocks (split_lines s) →
            dedent_chars_of (split_lines s) a b = Some d → 0 ≤ d) →
  dedent_code s ≫= dedent_code = dedent_code s.
Proof.
  intros Hmax Hnn.
  destruct (dedent_code_exact s)
    as (L1 & Hrun1 & Hsplit1 & Hsuf1 & Hframe1 & Hexact1).
  rewrite Hrun1. simpl.
  destruct (dedent_code_exact (join_lines L1))
    as (L2 & Hrun2 & _ & _ & Hframe2 & Hexact2).
  rewrite Hsplit1 in Hframe2, Hexact2. rewrite Hrun2. do 2 f_equal.
  pose proof (Forall2_length _ _ _ Hsuf1) as Hlen.
  assert (Forall (λ l, len l ≤ sys_maxsize) (split_lines s)) as Hmax0.
  { apply Forall_forall. intros l Hl. apply split_lines_len in Hl. lia. }
  assert (Forall (λ l, len l ≤ sys_maxsize) L1) as Hmax1.
  { apply Forall_lookup. intros i l1 Hl1.
    destruct (Forall2_lookup_l _ _ _ _ _ Hsuf1 Hl1) as (l & Hl & Hsl).
    apply suffix_len in Hsl.
    pose proof (proj1 (Forall_lookup _ _) Hmax0 _ _ Hl). simpl in *. lia. }
  assert (_find_code_blocks L1 = _find_code_blocks (split_lines s)) as HB.
  { rewrite !find_code_blocks_pair_up. f_equal.
    apply marker_indices_from_ext, Forall2_same_length_lookup_2; [done|].
    intros i l1 l Hl1 Hl.
    destruct (in_some_body_dec (_find_code_blocks (split_lines s)) i)
      as [Hin | Hout].
    - assert (contains fence l = false) as Hc.
      { apply not_true_is_false. intros Hc.
        eapply marker_not_in_some_body; [|exact Hin].
        apply elem_of_marker_indices. by exists l. }
      rewrite Hc. eapply contains_false_suffix; [|exact Hc].
      by eapply Forall2_lookup_lr.
    - rewrite Hframe1 in Hl1 by done. congruence. }
  rewrite HB in Hframe2, Hexact2.
  apply list_eq. intros j.
  destruct (in_some_body_dec (_find_code_blocks (split_lines s)) j)
    as [(a & b & Hab & Hbody) | Hout]; [|by apply Hframe2].
  pose proof (find_code_blocks_bounds _ _ _ Hab) as Hbounds.
  pose proof Hbody as Hbody'. unfold in_body in Hbody'.
  destruct (dedent_chars_of_min_indent (split_lines s) a b Hmax0)
    as (fl & m & Hfl & Hd & (j0 & l0 & Hj0 & Hl0 & Hm0) & Hlow); [lia|].
  destruct (dedent_chars_of_min_indent L1 a b Hmax1)
    as (fl1 & m1 & Hfl1 & Hd1 & (j1 & l1 & Hj1 & Hl1 & Hm1) & Hlow1); [lia|].
  pose proof (Hnn _ _ _ Hab Hd) as Hdnn.
  assert (fl1 = fl) as ->.
  { rewrite Hframe1 in Hfl1; [congruence|].
    apply marker_not_in_some_body.
    by apply (find_code_blocks_markers _ _ _ Hab). }
  assert (0 ≤ find fence fl) as Hf.
  { apply find_nonneg.
    destruct (find_code_blocks_markers _ _ _ Hab) as [Ha _].
    apply elem_of_marker_indices in Ha as (l & Hl & Hc). congruence. }
  set (d := Z.of_nat m - find fence fl) in *.
  assert (∀ k lk, in_body a b k → split_lines s !! k = Some lk →
            L1 !! k = Some (drop (Z.to_nat d) lk) ∧
            leading_whitespace (drop (Z.to_nat d) lk)
              = (leading_whitespace lk - Z.to_nat d)%nat) as Hbodyline.
  { intros k lk Hk Hlk. split.
    - rewrite (Hexact1 k a b d Hab Hk Hd), Hlk. simpl.
      by rewrite slice_from_nonneg.
    - apply leading_whitespace_drop. pose proof (Hlow k lk Hk Hlk). lia. }
  assert (Z.of_nat m1 = find fence fl) as Hm1f.
  { destruct (Hbodyline j0 l0 Hj0 Hl0) as [Hj0' Hw0].
    pose proof (Hlow1 j0 _ Hj0 Hj0') as Hle. rewrite Hw0, Hm0 in Hle.
    destruct (lookup_lt_is_Some_2 (split_lines s) j1) as [lj1 Hlj1].
    { unfold in_body in Hj1. lia. }
    destruct (Hbodyline j1 lj1 Hj1 Hlj1) as [Hj1' Hw1].
    assert (l1 = drop (Z.to_nat d) lj1) as -> by congruence.
    pose proof (Hlow j1 lj1 Hj1 Hlj1) as Hge.
    rewrite Hw1 in Hm1. lia. }
  rewrite (Hexact2 j a b 0 Hab Hbody).
  - by destruct (L1 !! j).
  - rewrite Hd1. f_equal. lia.
Qed.

(** The theorem at Example 1 of the specification. *)
Lemma dedent_code_idempotent_nonneg_witness :
  let s := py (nl "    ```" (nl "        code1" (nl "        code2" "    ```"))) in
  dedent_code s ≫= dedent_code = dedent_code s.
Proof.
  intros s. apply dedent_code_idempotent_nonneg.
  - assert (length s ≤ 50)%nat as Hlen by (vm_compute; lia).
    unfold len, sys_maxsize. lia.
  - intros a b d Hin Hd.
    assert (_find_code_blocks (split_lines s) = [(0, 3)%nat]) as HB
      by reflexivity.
    rewrite HB in Hin. apply list_elem_of_singleton in Hin.
    injection Hin as -> ->.
    assert (dedent_chars_of (split_lines s) 0 3 = Some 4) as Hd'
      by (vm_compute; reflexivity).
    rewrite Hd' in Hd. injection Hd as <-. lia.
Defined.

(** * The theorems at the specification's examples *)

(** Example 1 of the specification: fence at column 4, body at column 8. *)
Lemma dedent_chars_min_body_indent_witness :
  let lines := split_lines
    (py (nl "    ```" (nl "        code1" (nl "        code2" "    ```")))) in
  ∃ (fence_line : list ascii) (minBodyIndent : nat),
    lines !! 0%nat = Some fence_line ∧
    dedent_chars_of lines 0 3
      = Some (Z.of_nat minBodyIndent - find fence fence_line) ∧
    (∃ j l, in_body 0 3 j ∧ lines !! j = Some l ∧
            leading_whitespace l = minBodyIndent) ∧
    (∀ j l, in_body 0 3 j → lines !! j = Some l →
            (minBodyIndent ≤ leading_whitespace l)%nat).
Proof.
  intros lines. apply dedent_chars_min_body_indent.
  - apply Forall_forall. intros l Hl.
    assert (length l ≤ 13)%nat as Hlen.
    { revert l Hl. apply Forall_forall. vm_compute. repeat constructor. }
    unfold len, sys_maxsize. lia.
  - subst lines. vm_compute. lia.
Defined.

Lemma dedent_code_frame_witness :
  let s := py (nl "    ```" (nl "        code1" (nl "        code2" "    ```"))) in
  ∃ out, dedent_code s = Some out ∧
         split_lines out !! 0%nat = split_lines s !! 0%nat ∧
         split_lines out !! 3%nat = split_lines s !! 3%nat.
Proof.
  intros s. destruct (dedent_code_frame s) as (out & Hrun & _ & Hfence & _).
  exists out. split; [exact Hrun|]. apply Hfence.
  vm_compute. left.
Defined.

(** Example 4 of the specification: a single marker, never closed. *)
Lemma fence_markers_paired_by_alternation_witness :
  let s := py (nl "```" (nl "a" "b")) in
  marker_indices (split_lines s) = [0%nat] ∧ dedent_code s = Some s.
Proof.
  intros s. split; [reflexivity|].
  apply (proj2 (proj2 fence_markers_paired_by_alternation) s 0%nat).
  reflexivity.
Defined.

(** Example 2 of the specification. *)
Lemma dedent_code_fenceless_witness :
  let s := py (nl "no code here" "just text") in
  contains fence s = false ∧ dedent_code s = Some s.
Proof.
  intros s. split; [reflexivity|]. apply dedent_code_fenceless. reflexivity.
Defined.

Lemma get_request_tab_in_tabs_witness :
  let request := {| GET := {[ "tab" := ["newest"] ]} |} in
  GET request !! "tab" = Some ["newest"] ∧
  get_request_tab request = Some "latest".
Proof.
  intros request. split; [reflexivity|].
  apply (proj2 (proj2 get_request_tab_in_tabs) request ["newest"]);
    [reflexivity|].
  intros v [= <-]. vm_compute. intros H. discriminate H.
Defined.

Lemma humanize_number_tiers_witness :
  1000 < 1000000 ≤ 1000000 ∧
  humanize_number (Some 1000000) = Formatted (1000000 / 100) "k".
Proof.
  split; [lia|].
  apply (proj1 (proj2 (proj2 humanize_number_tiers))). lia.
Defined.

(** * Further properties of the fence pairing *)

(** X1: every span found by [_find_code_blocks] lies inside the document
    with its opening line before its closing line, and the spans come in
    document order without overlap: each one closes before the next
    opens. *)
Theorem find_code_blocks_well_formed (lines : list (list ascii)) :
  (∀ a b, (a, b) ∈ _find_code_blocks lines → (a < b < length lines)%nat) ∧
  StronglySorted span_before (_find_code_blocks lines).
Proof.
  split; [apply find_code_blocks_bounds | apply find_code_blocks_sorted].
Qed.

Lemma find_code_blocks_well_formed_witness :
  let lines := split_lines (py (nl "```" (nl "a" (nl "```" "```")))) in
  (0, 2)%nat ∈ _find_code_blocks lines ∧ (0 < 2 < length lines)%nat.
Proof.
  intros lines.
  assert ((0, 2)%nat ∈ _find_code_blocks lines) as Hin by (vm_compute; left).
  split; [exact Hin|].
  exact (proj1 (find_code_blocks_well_formed lines) 0%nat 2%nat Hin).
Defined.

(** X2: both end lines of a span hold the triple backtick, and no line
    strictly between them does. *)
Theorem find_code_blocks_fences (lines : list (list ascii)) (a b : nat) :
  (a, b) ∈ _find_code_blocks lines →
  (∃ la lb, lines !! a = Some la ∧ contains fence la = true ∧
            lines !! b = Some lb ∧ contains fence lb = true) ∧
  (∀ j l, in_body a b j → lines !! j = Some l → contains fence l = false).
Proof.
  intros Hab. split.
  - destruct (find_code_blocks_markers _ _ _ Hab) as [Ha Hb].
    apply elem_of_marker_indices in Ha as (la & Hla & Hca).
    apply elem_of_marker_indices in Hb as (lb & Hlb & Hcb).
    by exists la, lb.
  - intros j l Hj Hl. apply not_true_is_false. intros Hc.
    apply (marker_not_in_some_body lines j).
    + apply elem_of_marker_indices. by exists l.
    + by exists a, b.
Qed.

Lemma find_code_blocks_fences_witness :
  let lines := split_lines (py (nl "```" (nl "a" (nl "```" "```")))) in
  (0, 2)%nat ∈ _find_code_blocks lines ∧
  (∃ la lb, lines !! 0%nat = Some la ∧ contains fence la = true ∧
            lines !! 2%nat = Some lb ∧ contains fence lb = true) ∧
  contains fence (py "a") = false.
Proof.
  intros lines.
  assert ((0, 2)%nat ∈ _find_code_blocks lines) as Hin by (vm_compute; left).
  split; [exact Hin|].
  destruct (find_code_blocks_fences lines 0 2 Hin) as [Hends Hbody].
  split; [exact Hends|].
  apply (Hbody 1%nat); [unfold in_body; lia | reflexivity].
Defined.

Lemma pair_up_length (ms : list nat) :
  length (pair_up ms) = (length ms / 2)%nat.
Proof.
  induction ms as [| |a b rest IH] using pair_up_ind; [done..|].
  simpl pair_up. simpl length. rewrite IH.
  replace (S (S (length rest))) with (length rest + 1 * 2)%nat by lia.
  rewrite Nat.div_add by lia. lia.
Qed.

(** X3: a document with [n] fence markers has [n / 2] spans, rounded
    down. *)
Theorem find_code_blocks_count (lines : list (list ascii)) :
  length (_find_code_blocks lines) = (length (marker_indices lines) / 2)%nat.
Proof. rewrite find_code_blocks_pair_up. apply pair_up_length. Qed.

(** * Further properties of [_dedent_code_block] *)

Lemma line_start_loop_out_of_range (lines : list (list ascii)) (idx : list nat) :
  ∀ acc i, i ∈ idx → (length lines ≤ i)%nat →
  line_start_loop lines idx acc = None.
Proof.
  induction idx as [|k idx IH]; intros acc i Hi Hge; simpl.
  - by apply elem_of_nil in Hi.
  - destruct (lines !! k) as [lk|] eqn:Hk; simpl; [|done].
    apply elem_of_cons in Hi as [-> | Hi]; [|by eapply IH].
    apply lookup_lt_Some in Hk. lia.
Qed.

(** X4: [_dedent_code_block] fails with an index error exactly when the
    opening line is outside the list, or when the span has a body that
    reaches beyond the end of the list. *)
Theorem dedent_code_block_index_error (lines : list (list ascii)) (a b : nat) :
  _dedent_code_block lines a b = None ↔
  (length lines ≤ a)%nat ∨ ((a + 1 < b)%nat ∧ (length lines < b)%nat).
Proof.
  split.
  - intros Hnone.
    destruct (decide (length lines ≤ a)%nat) as [|Ha]; [by left|]. right.
    destruct (decide (b ≤ length lines)%nat) as [Hb|Hb].
    + destruct (dedent_code_block_spec lines a b) as (d & l' & _ & Hrun & _);
        [lia..|]. congruence.
    + split; [|lia].
      destruct (decide (a + 1 < b)%nat) as [|Hab]; [done|].
      destruct (dedent_code_block_spec lines a b) as (d & l' & _ & Hrun & _);
        [lia..|]. congruence.
  - unfold _dedent_code_block, dedent_chars_of.
    intros [Ha | [Hab Hb]].
    + by rewrite (proj2 (lookup_ge_None lines a) Ha).
    + destruct (lines !! a) as [fl|]; simpl; [|done].
      rewrite (line_start_loop_out_of_range lines _ _ (b - 1)%nat); [done| |lia].
      apply elem_of_range. lia.
Qed.

Lemma dedent_code_block_index_error_witness :
  _dedent_code_block [py "```"; py "a"] 0 3 = None.
Proof.
  apply dedent_code_block_index_error. right. simpl. lia.
Defined.

(** X5: on a span inside the list [_dedent_code_block] returns a list of
    the same length in which every body line is its own slice from the
    span's [dedent_chars] and every other line, the two fence lines
    included, is the line it was. *)
Theorem dedent_code_block_effect (lines : list (list ascii)) (a b : nat) :
  (a < length lines)%nat → (b ≤ length lines)%nat →
  ∃ d lines', dedent_chars_of lines a b = Some d ∧
    _dedent_code_block lines a b = Some lines' ∧
    length lines' = length lines ∧
    (∀ j l, in_body a b j → lines !! j = Some l →
            lines' !! j = Some (slice_from l d)) ∧
    (∀ j, ¬ in_body a b j → lines' !! j = lines !! j).
Proof.
  intros Ha Hb.
  destruct (dedent_code_block_spec lines a b Ha Hb)
    as (d & lines' & Hd & Hrun & Hlook).
  exists d, lines'. do 2 (split; [done|]).
  split; [exact (lookup_fmap_length _ _ _ Hlook)|]. split.
  - intros j l Hj Hl. rewrite Hlook, Hl. simpl. by rewrite decide_True.
  - intros j Hj. rewrite Hlook. destruct (lines !! j); simpl; [|done].
    by rewrite decide_False.
Qed.

Lemma dedent_code_block_effect_witness :
  let lines := [py "```"; py "  a"; py "```"] in
  ∃ d lines', dedent_chars_of lines 0 2 = Some d ∧
    _dedent_code_block lines 0 2 = Some lines' ∧
    length lines' = length lines ∧
    (∀ j l, in_body 0 2 j → lines !! j = Some l →
            lines' !! j = Some (slice_from l d)) ∧
    (∀ j, ¬ in_body 0 2 j → lines' !! j = lines !! j).
Proof.
  intros lines. apply dedent_code_block_effect; simpl; lia.
Defined.



(** * Further properties of [dedent_code] *)

Lemma join_lines_length (lines : list (list ascii)) :
  length (join_lines lines)
  = (sum_list_with length lines + (length lines - 1))%nat.
Proof.
  induction lines as [|l ls IH]; [done|].
  destruct ls as [|l' ls]; [simpl; lia|].
  change (join_lines (l :: l' :: ls))
    with (l ++ newline :: join_lines (l' :: ls)).
  rewrite length_app. cbn [length]. rewrite IH. simpl. lia.
Qed.

Lemma suffix_lines_sum (lines' lines : list (list ascii)) :
  Forall2 (λ l' l, l' `suffix_of` l) lines' lines →
  (sum_list_with length lines' ≤ sum_list_with length lines)%nat.
Proof.
  induction 1 as [|l' l ls' ls Hsuf _ IH]; simpl; [done|].
  apply suffix_length in Hsuf. lia.
Qed.

(** X7: [dedent_code] never returns more characters than it was given,
    whatever the indentation of the fences and of their bodies. *)
Theorem dedent_code_never_longer (s : list ascii) :
  ∃ out, dedent_code s = Some out ∧ (length out ≤ length s)%nat.
Proof.
  destruct (dedent_code_spec s) as (lines' & Hrun & _ & Hsuf & _).
  exists (join_lines lines'). split; [done|].
  rewrite <- (join_split_lines s) at 1. rewrite !join_lines_length.
  pose proof (suffix_lines_sum _ _ Hsuf).
  apply Forall2_length in Hsuf. lia.
Qed.

Lemma dedent_code_keeps_markers (s : list ascii) :
  ∃ out, dedent_code s = Some out ∧
    marker_indices (split_lines out) = marker_indices (split_lines s).
Proof.
  destruct (dedent_code_exact s) as (L1 & Hrun & Hsplit & Hsuf & Hframe & _).
  exists (join_lines L1). split; [done|]. rewrite Hsplit.
  apply marker_indices_from_ext, Forall2_same_length_lookup_2;
    [by eapply Forall2_length|].
  intros i l1 l Hl1 Hl.
  destruct (in_some_body_dec (_find_code_blocks (split_lines s)) i)
    as [Hin | Hout].
  - assert (contains fence l = false) as Hc.
    { apply not_true_is_false. intros Hc.
      eapply marker_not_in_some_body; [|exact Hin].
      apply elem_of_marker_indices. by exists l. }
    rewrite Hc. eapply contains_false_suffix; [|exact Hc].
    by eapply Forall2_lookup_lr.
  - rewrite Hframe in Hl1 by done. congruence.
Qed.

(** X8: [dedent_code] neither creates nor removes a fence marker: the
    result has its markers on the same lines as the input, and therefore
    the same spans. *)
Theorem dedent_code_keeps_spans (s : list ascii) :
  ∃ out, dedent_code s = Some out ∧
    marker_indices (split_lines out) = marker_indices (split_lines s) ∧
    _find_code_blocks (split_lines out) = _find_code_blocks (split_lines s).
Proof.
  destruct (dedent_code_keeps_markers s) as (out & Hrun & Hm).
  exists out. split; [done|]. split; [done|].
  by rewrite !find_code_blocks_pair_up, Hm.
Qed.

Lemma take_leading_whitespace (l : list ascii) : ∀ n,
  (n ≤ leading_whitespace l)%nat →
  Forall (λ c, isspace c = true) (take n l) ∧
  lstrip (drop n l) = lstrip l.
Proof.
  induction l as [|c l IH]; intros [|n]; simpl.
  - intros _. split; [constructor | done].
  - lia.
  - intros _. split; [constructor | done].
  - destruct (isspace c) eqn:Hc; [|lia]. intros Hn.
    destruct (IH n) as [Hall Hstrip]; [lia|]. split; [by constructor | done].
Qed.

(** [dedent_chars] of a recognized span never exceeds the indentation of a
    body line: the fence column is not negative. *)
Lemma dedent_chars_le_indent (lines : list (list ascii)) (a b j : nat)
    (d : Z) (l : list ascii) :
  Forall (λ l, len l ≤ sys_maxsize) lines →
  (a, b) ∈ _find_code_blocks lines → in_body a b j →
  dedent_chars_of lines a b = Some d → lines !! j = Some l →
  d ≤ Z.of_nat (leading_whitespace l).
Proof.
  intros Hmax Hab Hj Hd Hl.
  pose proof (find_code_blocks_bounds _ _ _ Hab) as Hbounds.
  unfold in_body in Hj.
  destruct (dedent_chars_of_min_indent lines a b Hmax)
    as (fl & m & Hfl & Hd' & _ & Hlow); [lia|].
  assert (0 ≤ find fence fl) as Hf.
  { apply find_nonneg.
    destruct (find_code_blocks_markers _ _ _ Hab) as [Ha _].
    apply elem_of_marker_indices in Ha as (la & Hla & Hc). congruence. }
  pose proof (Hlow j l Hj Hl). rewrite Hd' in Hd. injection Hd as <-. lia.
Qed.

Lemma split_lines_max (s : list ascii) :
  len s ≤ sys_maxsize → Forall (λ l, len l ≤ sys_maxsize) (split_lines s).
Proof.
  intros Hmax. apply Forall_forall. intros l Hl.
  apply split_lines_len in Hl. lia.
Qed.

(** X9: where the [dedent_chars] of a recognized span is not negative, a
    body line only loses leading whitespace: the line is a run of
    [dedent_chars] whitespace characters followed by the line that replaces
    it, and what follows the indentation is the same before and after. *)
Theorem dedent_code_strips_whitespace_only
    (s l : list ascii) (j a b : nat) (d : Z) :
  len s ≤ sys_maxsize →
  (a, b) ∈ _find_code_blocks (split_lines s) → in_body a b j →
  dedent_chars_of (split_lines s) a b = Some d → 0 ≤ d →
  split_lines s !! j = Some l →
  ∃ out ws l', dedent_code s = Some out ∧
    split_lines out !! j = Some l' ∧
    l = ws ++ l' ∧ length ws = Z.to_nat d ∧
    Forall (λ c, isspace c = true) ws ∧
    lstrip l' = lstrip l.
Proof.
  intros Hmax Hab Hj Hd Hnn Hl.
  pose proof (dedent_chars_le_indent _ _ _ _ _ _ (split_lines_max s Hmax)
                Hab Hj Hd Hl) as Hle.
  destruct (dedent_code_exact s) as (L1 & Hrun & Hsplit & _ & _ & Hexact).
  destruct (take_leading_whitespace l (Z.to_nat d)) as [Hws Hstrip]; [lia|].
  exists (join_lines L1), (take (Z.to_nat d) l), (drop (Z.to_nat d) l).
  split; [done|]. split.
  { rewrite Hsplit, (Hexact j a b d Hab Hj Hd), Hl. simpl.
    by rewrite slice_from_nonneg. }
  split; [by rewrite take_drop|]. split; [|done].
  rewrite length_take. pose proof (leading_whitespace_le l). lia.
Qed.

(** X10: where the [dedent_chars] of a recognized span with a body is not
    negative, the result has the least indented body line of the span at
    the column of the fence, and no body line to the left of it. *)
Theorem dedent_code_aligns_body (s fence_line : list ascii) (a b : nat) (d : Z) :
  len s ≤ sys_maxsize →
  (a, b) ∈ _find_code_blocks (split_lines s) → (a + 1 < b)%nat →
  dedent_chars_of (split_lines s) a b = Some d → 0 ≤ d →
  split_lines s !! a = Some fence_line →
  ∃ out, dedent_code s = Some out ∧
    (∃ j l, in_body a b j ∧ split_lines out !! j = Some l ∧
            Z.of_nat (leading_whitespace l) = find fence fence_line) ∧
    (∀ j l, in_body a b j → split_lines out !! j = Some l →
            find fence fence_line ≤ Z.of_nat (leading_whitespace l)).
Proof.
  intros Hmax Hab Hbody Hd Hnn Hfl.
  pose proof (find_code_blocks_bounds _ _ _ Hab) as Hbounds.
  destruct (dedent_chars_of_min_indent _ a b (split_lines_max s Hmax))
    as (fl & m & Hfl' & Hd' & (j0 & l0 & Hj0 & Hl0 & Hm0) & Hlow); [lia|].
  assert (fl = fence_line) as -> by congruence.
  assert (d = Z.of_nat m - find fence fence_line) as Hdm by congruence.
  assert (0 ≤ find fence fence_line) as Hf.
  { apply find_nonneg.
    destruct (find_code_blocks_markers _ _ _ Hab) as [Ha _].
    apply elem_of_marker_indices in Ha as (la & Hla & Hc). congruence. }
  destruct (dedent_code_exact s) as (L1 & Hrun & Hsplit & _ & _ & Hexact).
  exists (join_lines L1). split; [done|]. rewrite Hsplit.
  assert (∀ k lk, in_body a b k → split_lines s !! k = Some lk →
            L1 !! k = Some (drop (Z.to_nat d) lk) ∧
            leading_whitespace (drop (Z.to_nat d) lk)
              = (leading_whitespace lk - Z.to_nat d)%nat ∧
            (m ≤ leading_whitespace lk)%nat) as Hline.
  { intros k lk Hk Hlk. pose proof (Hlow k lk Hk Hlk). split; [|split; [|done]].
    - rewrite (Hexact k a b d Hab Hk Hd), Hlk. simpl.
      by rewrite slice_from_nonneg.
    - apply leading_whitespace_drop. lia. }
  split.
  - destruct (Hline j0 l0 Hj0 Hl0) as (Hout & Hw & _).
    exists j0, (drop (Z.to_nat d) l0). do 2 (split; [done|]).
    rewrite Hw, Hm0. lia.
  - intros j l Hj Hl.
    destruct (lookup_lt_is_Some_2 (split_lines s) j) as [lj Hlj].
    { unfold in_body in Hj. lia. }
    destruct (Hline j lj Hj Hlj) as (Hout & Hw & Hge).
    assert (l = drop (Z.to_nat d) lj) as -> by congruence.
    rewrite Hw. lia.
Qed.

Lemma dedent_code_strips_whitespace_only_witness :
  let s := py (nl "    ```" (nl "        code1" (nl "        code2" "    ```"))) in
  ∃ out ws l', dedent_code s = Some out ∧
    split_lines out !! 1%nat = Some l' ∧
    py "        code1" = ws ++ l' ∧ length ws = Z.to_nat 4 ∧
    Forall (λ c, isspace c = true) ws ∧
    lstrip l' = lstrip (py "        code1").
Proof.
  intros s.
  apply (dedent_code_strips_whitespace_only s _ 1 0 3 4).
  - assert (length s ≤ 50)%nat as Hlen by (vm_compute; lia).
    unfold len, sys_maxsize. lia.
  - vm_compute. left.
  - unfold in_body. lia.
  - vm_compute. reflexivity.
  - lia.
  - reflexivity.
Defined.

Lemma dedent_code_aligns_body_witness :
  let s := py (nl "    ```" (nl "        code1" (nl "        code2" "    ```"))) in
  ∃ out, dedent_code s = Some out ∧
    (∃ j l, in_body 0 3 j ∧ split_lines out !! j = Some l ∧
            Z.of_nat (leading_whitespace l) = find fence (py "    ```")) ∧
    (∀ j l, in_body 0 3 j → split_lines out !! j = Some l →
            find fence (py "    ```") ≤ Z.of_nat (leading_whitespace l)).
Proof.
  intros s.
  apply (dedent_code_aligns_body s _ 0 3 4).
  - assert (length s ≤ 50)%nat as Hlen by (vm_compute; lia).
    unfold len, sys_maxsize. lia.
  - vm_compute. left.
  - lia.
  - vm_compute. reflexivity.
  - lia.
  - reflexivity.
Defined.

Lemma dedent_code_negative_keeps_tail_witness :
  let s := py (nl "  ```" (nl "code" "  ```")) in
  ∃ out, dedent_code s = Some out ∧
         split_lines out !! 1%nat = Some (py "de").
Proof.
  intros s.
  apply (dedent_code_negative_keeps_tail s (py "code") 1 0 2 (-2)).
  - vm_compute. left.
  - unfold in_body. lia.
  - vm_compute. reflexivity.
  - lia.
  - reflexivity.
Defined.

(** * Further properties of the request helpers *)

(** X13: [get_request_param] gives the last value the query string carries
    for the parameter, and the default value when the parameter is absent
    or carries no value, whether or not the query string has other
    parameters. *)
Theorem get_request_param_last_value (request : HttpRequest)
    (param_name : string) (default_value : option string) :
  (∀ vs v, GET request !! param_name = Some vs → last vs = Some v →
           get_request_param request param_name default_value = Some v) ∧
  (GET request !! param_name = None ∨ GET request !! param_name = Some [] →
   get_request_param request param_name default_value = default_value).
Proof.
  unfold get_request_param, querydict_get. split.
  - intros vs v Hvs Hlast. case_decide as Hempty.
    + rewrite Hempty, lookup_empty in Hvs. done.
    + by rewrite Hvs, Hlast.
  - intros [Hnone | Hnil]; case_decide; try done.
    + by rewrite Hnone.
    + by rewrite Hnil.
Qed.

Lemma get_request_param_last_value_witness :
  let request := {| GET := {[ "page" := ["1"; "2"] ]} |} in
  get_request_param request "page" None = Some "2" ∧
  get_request_param request "tab" (Some "latest") = Some "latest".
Proof.
  intros request. split.
  - apply (proj1 (get_request_param_last_value request "page" None)
             ["1"; "2"] "2"); reflexivity.
  - apply (proj2 (get_request_param_last_value request "tab" (Some "latest"))).
    left. reflexivity.
Defined.

(** X14: a ['tab'] value that is one of the four tab names is returned as
    it is. *)
Theorem get_request_tab_valid (request : HttpRequest) (vs : list string)
    (v : string) :
  GET request !! "tab" = Some vs → last vs = Some v → v ∈ tabs →
  get_request_tab request = Some v.
Proof.
  intros Hvs Hlast Hv. unfold get_request_tab.
  rewrite (proj1 (get_request_param_last_value request "tab" (Some "latest"))
             vs v Hvs Hlast).
  by rewrite decide_True.
Qed.

Lemma get_request_tab_valid_witness :
  get_request_tab {| GET := {[ "tab" := ["latest"; "unanswered"] ]} |}
  = Some "unanswered".
Proof.
  apply (get_request_tab_valid _ ["latest"; "unanswered"]);
    [reflexivity | reflexivity |].
  by vm_compute.
Defined.

(** * Further properties of the template tags *)

(** X15: an abbreviated number is the value cut down, never rounded up, to
    one decimal of its unit: with [q] the tenths shown, [q] tenths of the
    unit are at most the value and [q + 1] tenths are more.  At least 1.0
    is shown, and at most 1,000.0 with 'k' and 'm'. *)
Theorem humanize_number_truncates (value q : Z) (unit : string) :
  humanize_number (Some value) = Formatted q unit →
  10 ≤ q ∧
  (unit = "k" ∧ q ≤ 10000 ∧ 100 * q ≤ value < 100 * (q + 1) ∨
   unit = "m" ∧ q ≤ 10000 ∧ 100000 * q ≤ value < 100000 * (q + 1) ∨
   unit = "B" ∧ 100000000 * q ≤ value < 100000000 * (q + 1)).
Proof.
  unfold humanize_number.
  destruct (Z.ltb_spec 1000000000 value) as [HB|HB];
    [|destruct (Z.ltb_spec 1000000 value) as [Hm|Hm];
      [|destruct (Z.ltb_spec 1000 value) as [Hk|Hk]; [|done]]];
    intros [= <- <-].
  - pose proof (Z.div_mod value 100000000 ltac:(lia)).
    pose proof (Z.mod_pos_bound value 100000000 ltac:(lia)).
    split; [lia|]. right. right. split; [done|]. lia.
  - pose proof (Z.div_mod value 100000 ltac:(lia)).
    pose proof (Z.mod_pos_bound value 100000 ltac:(lia)).
    split; [lia|]. right. left. split; [done|]. lia.
  - pose proof (Z.div_mod value 100 ltac:(lia)).
    pose proof (Z.mod_pos_bound value 100 ltac:(lia)).
    split; [lia|]. left. split; [done|]. lia.
Qed.

Lemma humanize_number_truncates_witness :
  10 ≤ 19 ∧
  ("k" = "k" ∧ 19 ≤ 10000 ∧ 100 * 19 ≤ 1999 < 100 * (19 + 1) ∨
   "k" = "m" ∧ 19 ≤ 10000 ∧ 100000 * 19 ≤ 1999 < 100000 * (19 + 1) ∨
   "k" = "B" ∧ 100000000 * 19 ≤ 1999 < 100000000 * (19 + 1)).
Proof. apply (humanize_number_truncates 1999 19 "k"). reflexivity. Defined.

Lemma dom_3RD_PARTY_URLS_CDN :
  dom _3RD_PARTY_URLS_CDN = list_to_set tool_names.
Proof. unfold _3RD_PARTY_URLS_CDN. by rewrite dom_list_to_map_L. Qed.

Lemma dom_3RD_PARTY_URLS_STATIC :
  dom _3RD_PARTY_URLS_STATIC = list_to_set tool_names.
Proof. unfold _3RD_PARTY_URLS_STATIC. by rewrite dom_list_to_map_L. Qed.

(** X16: the two tables of [_3RD_PARTY_URLS] list the same eleven tools.
    For each of them [get_url] returns a URL, with either setting of
    [USE_CDN]; for any other name it raises [TemplateSyntaxError] with the
    message ['<name> does not exist!'].  No [KeyError] is ever raised. *)
Theorem get_url_tool_names (USE_CDN : bool) (static : string → string)
    (tool_name : string) :
  dom _3RD_PARTY_URLS_CDN = dom _3RD_PARTY_URLS_STATIC ∧
  (tool_name ∈ tool_names →
   ∃ url, get_url USE_CDN static tool_name = inr url) ∧
  (tool_name ∉ tool_names →
   get_url USE_CDN static tool_name
   = inl (TemplateSyntaxError (tool_name +:+ " does not exist!"))) ∧
  (∀ key, get_url USE_CDN static tool_name ≠ inl (KeyError key)).
Proof.
  assert (tool_name ∈ tool_names →
          ∃ url, get_url USE_CDN static tool_name = inr url) as Hknown.
  { intros Hin. unfold get_url.
    assert (tool_name ∈ dom _3RD_PARTY_URLS_CDN) as Hc
      by (rewrite dom_3RD_PARTY_URLS_CDN; by apply elem_of_list_to_set).
    assert (tool_name ∈ dom _3RD_PARTY_URLS_STATIC) as Hs
      by (rewrite dom_3RD_PARTY_URLS_STATIC; by apply elem_of_list_to_set).
    rewrite !bool_decide_eq_false_2 by (by intros ?). simpl.
    apply elem_of_dom in Hc as [u Hu]. apply elem_of_dom in Hs as [p Hp].
    unfold getitem. rewrite Hu, Hp. destruct USE_CDN; by eexists. }
  assert (tool_name ∉ tool_names →
          get_url USE_CDN static tool_name
          = inl (TemplateSyntaxError (tool_name +:+ " does not exist!")))
    as Hunknown.
  { intros Hout. unfold get_url.
    rewrite bool_decide_eq_true_2; [done|].
    rewrite dom_3RD_PARTY_URLS_CDN. by rewrite elem_of_list_to_set. }
  split; [by rewrite dom_3RD_PARTY_URLS_CDN, dom_3RD_PARTY_URLS_STATIC|].
  do 2 (split; [done|]). intros key Hkey.
  destruct (decide (tool_name ∈ tool_names)) as [Hin | Hout].
  - destruct (Hknown Hin) as [url Hurl]. congruence.
  - rewrite (Hunknown Hout) in Hkey. done.
Qed.

Lemma get_url_tool_names_witness :
  (∃ url, get_url false (λ path, "/static/" +:+ path) "mermaidjs" = inr url) ∧
  get_url true (λ path, "/static/" +:+ path) "jquery"
  = inl (TemplateSyntaxError "jquery does not exist!").
Proof.
  split.
  - apply (get_url_tool_names false _ "mermaidjs").
    unfold tool_names. repeat constructor.
  - apply (proj1 (proj2 (proj2 (get_url_tool_names true _ "jquery")))).
    unfold tool_names. intros H.
    repeat (apply elem_of_cons in H as [H | H]; [discriminate H|]).
    by apply elem_of_nil in H.
Defined.

(** * The bookmark counter *)


Lemma count_bookmarks_delete (rows : gmap nat (nat * nat)) (k q u u' : nat) :
  rows !! k = Some (q, u) →
  count_bookmarks (delete k rows) u'
  = if decide (u = u') then pred (count_bookmarks rows u')
    else count_bookmarks rows u'.
Proof.
  intros Hk. unfold count_bookmarks. rewrite map_filter_delete.
  case_decide as Hu.
  - apply map_size_delete_Some. exists (q, u).
    by apply map_lookup_filter_Some_2.
  - apply map_size_delete_None, map_lookup_filter_None_2. right.
    intros y Hy. replace y with (q, u) by congruence. done.
Qed.



(** X18: deleting a bookmark whose stored row is the instance's (same
    question and user) keeps every user's [bookmarks_count] equal to the
    number of the user's bookmarks, and makes the counter of the bookmark's
    user one less than the number of bookmarks the user had. *)
Theorem delete_bookmark_counts (k : nat) (db db' : Database)
    (self self' : QuestionBookmark) :
  counts_consistent db → pk self = Some k →
  bookmarks db !! k = Some (question self, user self) →
  QuestionBookmark_delete db self = Some (db', self') →
  counts_consistent db' ∧ bookmarks db' !! k = None ∧ pk self' = None ∧
  bookmarks_count db' !! user self
  = Some (pred (count_bookmarks (bookmarks db) (user self))).
Proof.
  intros Hcons Hpk Hrow. unfold QuestionBookmark_delete. rewrite Hpk. simpl.
  intros [= <- <-]. simpl. split; [|split; [|split; [done|]]].
  - intros u c. simpl. destruct (decide (user self = u)) as [<-|Hne].
    + rewrite lookup_insert_eq. congruence.
    + rewrite lookup_insert_ne by done.
      rewrite (count_bookmarks_delete _ _ _ _ _ Hrow).
      rewrite decide_False by done. apply Hcons.
  - apply lookup_delete_eq.
  - rewrite lookup_insert_eq, (count_bookmarks_delete _ _ _ _ _ Hrow).
    by rewrite decide_True.
Qed.


Lemma delete_bookmark_counts_witness :
  let db := {| bookmarks := {[ 0%nat := (1%nat, 7%nat) ]};
               bookmarks_count := {[ 7%nat := 1%nat ]} |} in
  let db' := {| bookmarks := delete 0%nat {[ 0%nat := (1%nat, 7%nat) ]};
                bookmarks_count :=
                  <[ 7%nat := count_bookmarks
                                (delete 0%nat {[ 0%nat := (1%nat, 7%nat) ]}) 7 ]>
                    {[ 7%nat := 1%nat ]} |} in
  counts_consistent db' ∧ bookmarks db' !! 0%nat = None ∧
  pk {| pk := None; question := 1; user := 7 |} = None ∧
  bookmarks_count db' !! 7%nat = Some (pred (count_bookmarks (bookmarks db) 7)).
Proof.
  apply (delete_bookmark_counts 0
           {| bookmarks := {[ 0%nat := (1%nat, 7%nat) ]};
              bookmarks_count := {[ 7%nat := 1%nat ]} |}
           _ {| pk := Some 0%nat; question := 1; user := 7 |}).
  - intros u c. simpl. intros Hc.
    apply lookup_singleton_Some in Hc as [<- <-]. reflexivity.
  - reflexivity.
  - reflexivity.
  - reflexivity.
Defined.








(** * The experts of a tag *)

Global Instance more_reputation_total : Total more_reputation.
Proof. intros x y. unfold more_reputation. lia. Qed.

Global Instance more_reputation_trans : Transitive more_reputation.
Proof. intros x y z. unfold more_reputation. lia. Qed.

Lemma StronglySorted_lookup_lt {A} (R : relation A) (l : list A)
    (i j : nat) (x y : A) :
  StronglySorted R l → (i < j)%nat → l !! i = Some x → l !! j = Some y →
  R x y.
Proof.
  intros Hsorted. revert i j.
  induction Hsorted as [|a l Hsorted IH Hall]; intros i j Hij Hi Hj.
  - by rewrite lookup_nil in Hi.
  - destruct j as [|j]; [lia|]. destruct i as [|i]; simpl in *.
    + injection Hi as <-. rewrite Forall_forall in Hall.
      apply Hall. by eapply list_elem_of_lookup_2.
    + apply (IH i j); [lia | done | done].
Qed.

Lemma tag_experts_take_drop (tagfollow_set : list TagFollow) :
  tag_experts tagfollow_set
  ++ drop 3 (merge_sort more_reputation
               (filter (λ f, 0 < reputation f) tagfollow_set))
  = merge_sort more_reputation
      (filter (λ f, 0 < reputation f) tagfollow_set).
Proof. apply take_drop. Qed.

(** X22: [tag_experts] returns rows of the tag with a reputation above
    zero, each at most as often as the tag has it, and as many as there
    are such rows, up to three. *)
Theorem tag_experts_selects (tagfollow_set : list TagFollow) :
  tag_experts tagfollow_set ⊆+ filter (λ f, 0 < reputation f) tagfollow_set ∧
  length (tag_experts tagfollow_set)
  = Nat.min 3 (length (filter (λ f, 0 < reputation f) tagfollow_set)).
Proof.
  unfold tag_experts. split.
  - rewrite <- (merge_sort_Permutation more_reputation
                  (filter (λ f, 0 < reputation f) tagfollow_set)) at 2.
    apply submseteq_take.
  - rewrite length_take. f_equal.
    apply Permutation_length, merge_sort_Permutation.
Qed.

(** X23: the rows [tag_experts] returns are in order of reputation, the
    highest first. *)
Theorem tag_experts_sorted (tagfollow_set : list TagFollow) (i j : nat)
    (x y : TagFollow) :
  (i < j)%nat →
  tag_experts tagfollow_set !! i = Some x →
  tag_experts tagfollow_set !! j = Some y →
  reputation y ≤ reputation x.
Proof.
  intros Hij Hi Hj.
  apply (StronglySorted_lookup_lt more_reputation
           (tag_experts tagfollow_set) i j x y); [|done..].
  apply (StronglySorted_app_1_l more_reputation _
           (drop 3 (merge_sort more_reputation
                      (filter (λ f, 0 < reputation f) tagfollow_set)))).
  rewrite tag_experts_take_drop. apply StronglySorted_merge_sort; apply _.
Qed.

(** X24: a row of the tag with a reputation above zero that [tag_experts]
    leaves out has at most the reputation of every row it returns. *)
Theorem tag_experts_top (tagfollow_set : list TagFollow) (x y : TagFollow) :
  x ∈ tag_experts tagfollow_set →
  y ∈ tagfollow_set → 0 < reputation y → y ∉ tag_experts tagfollow_set →
  reputation y ≤ reputation x.
Proof.
  intros Hx Hy Hpos Hout.
  assert (y ∈ merge_sort more_reputation
                (filter (λ f, 0 < reputation f) tagfollow_set)) as Hin.
  { rewrite merge_sort_Permutation. by apply list_elem_of_filter. }
  rewrite <- tag_experts_take_drop in Hin.
  apply elem_of_app in Hin as [Hin | Hin]; [done|].
  apply (StronglySorted_app_1_elem_of more_reputation
           (tag_experts tagfollow_set)
           (drop 3 (merge_sort more_reputation
                      (filter (λ f, 0 < reputation f) tagfollow_set))));
    [|done..].
  rewrite tag_experts_take_drop. apply StronglySorted_merge_sort; apply _.
Qed.

Lemma tag_experts_sorted_witness :
  reputation {| follower := 5; reputation := 7 |}
  ≤ reputation {| follower := 3; reputation := 9 |}.
Proof.
  apply (tag_experts_sorted
           [ {| follower := 1; reputation := 5 |};
             {| follower := 2; reputation := 0 |};
             {| follower := 3; reputation := 9 |};
             {| follower := 4; reputation := 2 |};
             {| follower := 5; reputation := 7 |} ] 0 1).
  - lia.
  - vm_compute. reflexivity.
  - vm_compute. reflexivity.
Defined.

Lemma tag_experts_top_witness :
  reputation {| follower := 4; reputation := 2 |}
  ≤ reputation {| follower := 1; reputation := 5 |}.
Proof.
  apply (tag_experts_top
           [ {| follower := 1; reputation := 5 |};
             {| follower := 2; reputation := 0 |};
             {| follower := 3; reputation := 9 |};
             {| follower := 4; reputation := 2 |};
             {| follower := 5; reputation := 7 |} ]).
  - vm_compute. repeat constructor.
  - repeat constructor.
  - simpl. lia.
  - vm_compute. intros H.
    repeat (apply elem_of_cons in H as [H | H]; [discriminate H|]).
    by apply elem_of_nil in H.
Defined.
